(** * Code Remote: the relay server and the agent, embedded in Rocq

    A shallow embedding of [src/agent/agent.py] (module [Agent]) and of
    [src/server/server.py] (module [Server]), followed by the properties
    of the relay core: the path gate, the truncation of captured text,
    the shell time limit, the command store updates and the bounded
    wait of [execute_command].

    Conventions of the embedding.
    - A Python [str] is a Rocq [string]; [len] counts characters.
    - A raised exception is the left injection of a sum and carries the
      text of [str(e)]; a handler that catches it turns that text into
      the [error] of its result.
    - A JSON object or a keyword dictionary with optional keys is a
      record whose fields are [jfield]s: the key can be absent, present
      with [null]/[None], or present with a value.
    - Whatever the operating system, the interpreter's library or the
      other tasks of the event loop decide (path resolution, the
      behaviour of a spawned process, the fate of a socket write, what
      the receive loop stores while a caller sleeps) is an explicit
      input of the function that depends on it.
    - Both programs log by printing to the standard output. The
      standard output is taken to be writable: [log], [log_error] and
      [print] return, and their calls are left out.
    - An integer bound to a statement of the database is stored only if
      it fits the signed 64-bit integers of SQLite; the binding raises
      [OverflowError] otherwise, before the statement runs. *)

From Stdlib Require Import ZArith Lia Ascii String List Bool.
From stdpp Require Import base option numbers list strings gmap pretty sorting.

Import ListNotations.
Local Open Scope string_scope.

(** ** Python values shared by both programs *)

(** [len(s)] *)
Definition len (s : string) : Z := Z.of_nat (String.length s).

(** [s[:n]] for a non-negative bound [n]. *)
Fixpoint slice_to (n : Z) (s : string) : string :=
  match s with
  | EmptyString => EmptyString
  | String c rest =>
      if (n <=? 0)%Z then EmptyString else String c (slice_to (n - 1) rest)
  end.

(** Truthiness of a string: [if s:] *)
Definition truthy (s : string) : bool :=
  match s with EmptyString => false | String _ _ => true end.

(** A key of a dictionary: missing, [None], or a value. *)
Inductive jfield (A : Type) : Type :=
  | Absent : jfield A
  | Null : jfield A
  | Val (a : A) : jfield A.
Arguments Absent {A}.
Arguments Null {A}.
Arguments Val {A} a.

(** [d.get(k)] *)
Definition get {A} (f : jfield A) : option A :=
  match f with Val a => Some a | _ => None end.

(** [d.get(k, default)] *)
Definition get_default {A} (f : jfield A) (default : A) : option A :=
  match f with Absent => Some default | Null => None | Val a => Some a end.

(** Carriage return, line feed, and the one-character strings made of
    a line feed and of a tab. *)
Definition CR : ascii := "013"%char.
Definition LF : ascii := "010"%char.
Definition LF_s : string := String LF EmptyString.
Definition TAB_s : string := String "009"%char EmptyString.

(** A computation that may raise: the exception's text, or the value. *)
Definition Exc (A : Type) : Type := (string + A)%type.

(** The integers SQLite stores, and what [sqlite3] raises on one that
    is not among them when it binds the parameters of a statement. *)
Definition int64 (n : Z) : bool := ((- 2 ^ 63 <=? n) && (n <? 2 ^ 63))%Z.

Definition OVERFLOW : string := "Python int too large to convert to SQLite INTEGER".

(** * The agent ([src/agent/agent.py]) *)
Module Agent.

(** [MAX_OUTPUT_SIZE = 1_000_000] *)
Definition MAX_OUTPUT_SIZE : Z := 1000000.

(** *** Paths

    A [pathlib] path is the list of its [parts]: the anchor first for an
    absolute path (["/"], or ["//"]), then one name per component. *)
Definition Path : Type := list string.

Definition is_absolute (p : Path) : bool :=
  match p with
  | a :: _ => bool_decide (a = "/") || bool_decide (a = "//")
  | [] => false
  end.

(** ["/".join(names)] *)
Fixpoint join_names (names : list string) : string :=
  match names with
  | [] => EmptyString
  | [n] => n
  | n :: rest => n +:+ "/" +:+ join_names rest
  end.

(** [str(path)] *)
Definition to_str (p : Path) : string :=
  match p with
  | [] => "."
  | a :: names => if is_absolute p then a +:+ join_names names else join_names p
  end.

(** [path.parent]: the anchor is its own parent. *)
Definition parent (p : Path) : Path :=
  match p with
  | [a] => if is_absolute p then p else []
  | _ => removelast p
  end.

(** [path.name] *)
Definition name (p : Path) : string :=
  match p with
  | [a] => if is_absolute p then EmptyString else a
  | _ => List.last p EmptyString
  end.

(** [path.parents]: the proper ancestors, nearest first, down to the
    anchor (or to ["."] for a relative path). *)
Fixpoint ancestors (fuel : nat) (p : Path) : list Path :=
  match fuel with
  | O => []
  | S fuel' =>
      let q := parent p in
      if bool_decide (q = p) then [] else q :: ancestors fuel' q
  end.

Definition parents (p : Path) : list Path := ancestors (length p) p.

(** *** Results of the handlers: the dictionary each of them returns. *)
Record Result : Type := mkResult {
  status : string;
  output : jfield string;
  error : jfield string;
  exit_code : jfield Z
}.

(** *** The file system and the processes of the host *)
Inductive Node : Type :=
  | File (text : string)
  | Dir.

(** What a shell started on a command does: how long [communicate()]
    takes to return (milliseconds, [None] when it never does), what it
    wrote, how it exited, and the files it leaves behind. The record
    is about the shell the agent starts, the one process it holds a
    handle on; processes the command starts in its turn are not
    followed. *)
Record Process : Type := mkProcess {
  runtime : option Z;
  stdout : string;
  stderr : string;
  returncode : Z;
  leaves : gmap Path Node
}.

(** The machine state an agent handler acts on: the file tree, the
    children of the agent that are alive (the shells it has started and
    not yet waited for), the exit statuses collected from those that
    have been waited for, and the next process id. *)
Record OS : Type := mkOS {
  files : gmap Path Node;
  running : gset nat;
  reaped : list (nat * Z);
  next_pid : nat
}.

(** The host the agent runs on: the home directory, path resolution
    ([Path(s).expanduser().resolve()], which consults the symbolic links
    and the user database and may raise), the behaviour of the
    shell [DEFAULT_SHELL] on a command started in a directory
    ([create_subprocess_shell] may raise instead), and what becomes of
    a text written to a file that has been opened for writing: the
    write goes through ([None]), or it raises (the text cannot be
    encoded, the disk is full) with the file holding what was written
    before. The return code of a child is what [waitpid] gives: an exit
    status of eight bits, or the negated number of a signal. *)
Class Host : Type := {
  home : Path;
  resolve : string -> Exc Path;
  shell : string -> option Path -> gmap Path Node -> Exc Process;
  write_fault : Path -> string -> option (string * string);
  returncode_range :
    forall command cwd fs process,
      shell command cwd fs = inr process -> (-128 < returncode process < 256)%Z
}.

(** *** Operating-system calls on the file tree

    [errno] values of the calls the handlers make, and the text Python
    gives the exception it raises for them. *)
Inductive OSError : Type :=
  | ENOENT (p : Path)
  | EEXIST (p : Path)
  | ENOTDIR (p : Path)
  | EISDIR (p : Path).

Definition strerror (e : OSError) : string :=
  match e with
  | ENOENT p => "[Errno 2] No such file or directory: '" +:+ to_str p +:+ "'"
  | EEXIST p => "[Errno 17] File exists: '" +:+ to_str p +:+ "'"
  | ENOTDIR p => "[Errno 20] Not a directory: '" +:+ to_str p +:+ "'"
  | EISDIR p => "[Errno 21] Is a directory: '" +:+ to_str p +:+ "'"
  end.

Definition is_file_node (o : option Node) : bool :=
  match o with Some (File _) => true | _ => false end.

Definition is_dir_node (o : option Node) : bool :=
  match o with Some Dir => true | _ => false end.

(** [path.exists()], [path.is_file()], [path.is_dir()] *)
Definition exists_ (fs : gmap Path Node) (p : Path) : bool :=
  bool_decide (is_Some (fs !! p)).
Definition is_file (fs : gmap Path Node) (p : Path) : bool := is_file_node (fs !! p).
Definition is_dir (fs : gmap Path Node) (p : Path) : bool := is_dir_node (fs !! p).

(** Some proper ancestor of [p] is a regular file: the kernel cannot
    walk down to [p]. *)
Definition through_file (fs : gmap Path Node) (p : Path) : bool :=
  existsb (is_file fs) (parents p).

(** [os.mkdir(p)] *)
Definition os_mkdir (fs : gmap Path Node) (p : Path) : OSError + gmap Path Node :=
  if through_file fs p then inl (ENOTDIR p)
  else if exists_ fs p then inl (EEXIST p)
  else if exists_ fs (parent p) then inr (<[p := Dir]> fs)
  else inl (ENOENT p).

(** [path.mkdir(parents=True, exist_ok=True)], as [pathlib] writes it:
    try [os.mkdir]; when the parent is missing make it first and try
    again; an existing directory is not an error. *)
Fixpoint mkdir_parents (fuel : nat) (fs : gmap Path Node) (p : Path)
  : OSError + gmap Path Node :=
  match os_mkdir fs p with
  | inr fs' => inr fs'
  | inl (ENOENT q) =>
      match fuel with
      | O => inl (ENOENT q)
      | S fuel' =>
          if bool_decide (parent p = p) then inl (ENOENT q)
          else match mkdir_parents fuel' fs (parent p) with
               | inl e => inl e
               | inr fs' => os_mkdir fs' p
               end
      end
  | inl e => if is_dir fs p then inr fs else inl e
  end.

Definition mkdir (fs : gmap Path Node) (p : Path) : OSError + gmap Path Node :=
  mkdir_parents (length p) fs p.

(** [path.write_text(content)]: the file is opened for writing in text
    mode, which creates it or empties it, and the text is written; on a
    POSIX host no character is translated on the way out. An exception
    comes with the tree it leaves: the tree as it was when the file
    could not be opened, the tree with the file cut short when the
    write failed after that. *)
Definition write_text `{host : Host} (fs : gmap Path Node) (p : Path) (content : string)
  : (string * gmap Path Node) + gmap Path Node :=
  if through_file fs p then inl (strerror (ENOTDIR p), fs)
  else if is_dir fs p then inl (strerror (EISDIR p), fs)
  else if exists_ fs (parent p) then
    match write_fault p content with
    | Some (e, kept) => inl (e, <[p := File kept]> fs)
    | None => inr (<[p := File content]> fs)
    end
  else inl (strerror (ENOENT p), fs).

(** Text mode on the way in: a carriage return, alone or followed by a
    line feed, is read as one line feed. *)
Fixpoint universal_newlines (s : string) : string :=
  match s with
  | EmptyString => EmptyString
  | String c rest =>
      if Ascii.eqb c CR then
        String LF
          match rest with
          | String c' rest' =>
              if Ascii.eqb c' LF then universal_newlines rest'
              else universal_newlines rest
          | EmptyString => EmptyString
          end
      else String c (universal_newlines rest)
  end.

(** [path.read_text(errors="replace")]; a [File] node holds the decoded
    characters of the file. *)
Definition read_text (fs : gmap Path Node) (p : Path) : OSError + string :=
  match fs !! p with
  | Some (File text) => inr (universal_newlines text)
  | Some Dir => inl (EISDIR p)
  | None => inl (ENOENT p)
  end.

(** [entry.stat().st_size] of a regular file: its length in UTF-8. *)
Fixpoint utf8_size (s : string) : Z :=
  match s with
  | EmptyString => 0
  | String c rest => (if (N_of_ascii c <? 128)%N then 1 else 2) + utf8_size rest
  end%Z.

(** Order of [sorted] on paths: by parts, each compared as a string. *)
Fixpoint path_leb (p q : Path) : bool :=
  match p, q with
  | [], _ => true
  | _ :: _, [] => false
  | a :: p', b :: q' =>
      match String.compare a b with
      | Lt => true
      | Gt => false
      | Eq => path_leb p' q'
      end
  end.

Definition path_le (p q : Path) : Prop := path_leb p q = true.

Global Instance path_le_dec : RelDecision path_le.
Proof. intros p q. unfold path_le. apply _. Defined.

(** [path.iterdir()] *)
Definition iterdir (fs : gmap Path Node) (p : Path) : list Path :=
  filter (fun q => parent q = p /\ q <> p) (map fst (map_to_list fs)).

(** The cut applied to captured text:
    [if len(t) > MAX_OUTPUT_SIZE: t = t[:MAX_OUTPUT_SIZE] + marker] *)
Definition truncated (marker : string) (t : string) : string :=
  if (len t >? MAX_OUTPUT_SIZE)%Z then slice_to MAX_OUTPUT_SIZE t +:+ marker
  else t.

(** ["\n".join(lines)] *)
Fixpoint join_lines (lines : list string) : string :=
  match lines with
  | [] => EmptyString
  | [l] => l
  | l :: rest => l +:+ LF_s +:+ join_lines rest
  end.

(** [asyncio.wait_for(process.communicate(), timeout=timeout)] returns
    when the process is done inside the time limit (seconds), and
    raises [TimeoutError] otherwise; a limit that is not positive
    expires at once. *)
Definition completes_within (timeout : Z) (p : Process) : bool :=
  match runtime p with
  | Some ms => (0 <? timeout)%Z && (ms <=? 1000 * timeout)%Z
  | None => false
  end.

(** [signal.SIGKILL] *)
Definition SIGKILL : Z := 9.

(** The process table: [create_subprocess_shell]; the exit, with its
    return code, of a process whose [communicate()] has returned; and
    [process.kill()] followed by [process.wait()], which collects the
    negated signal number. [fs] is the file tree the process leaves. *)
Definition spawn (fs : gmap Path Node) (os : OS) : nat * OS :=
  (next_pid os,
   {| files := fs; running := {[next_pid os]} ∪ running os;
      reaped := reaped os; next_pid := S (next_pid os) |}).

Definition exited (pid : nat) (code : Z) (fs : gmap Path Node) (os : OS) : OS :=
  {| files := fs; running := running os ∖ {[pid]};
     reaped := (pid, code) :: reaped os; next_pid := next_pid os |}.

Definition kill (pid : nat) (fs : gmap Path Node) (os : OS) : OS :=
  {| files := fs; running := running os ∖ {[pid]};
     reaped := (pid, (- SIGKILL)%Z) :: reaped os; next_pid := next_pid os |}.

Section Handlers.
Context `{host : Host}.

(** [ALLOWED_PATHS] *)
Definition ALLOWED_PATHS : list Path :=
  [home; ["/"; "tmp"]; ["/"; "var"; "tmp"]].

(** The test of the generator expression of [is_path_allowed]. *)
Definition within (path allowed : Path) : bool :=
  bool_decide (path = allowed) || bool_decide (allowed ∈ parents path).

Definition is_path_allowed (path_str : string) : bool :=
  match resolve path_str with
  | inr path => existsb (within path) ALLOWED_PATHS
  | inl _ => false
  end.

Definition failed (msg : string) : Result :=
  {| status := "failed"; output := Absent; error := Val msg; exit_code := Val 1%Z |}.

(** The first lines of [execute_shell], which settle [cwd]. The
    resolution of the working directory stands outside the [try]: what
    it raises leaves the handler. An empty [working_dir] counts as none. *)
Inductive Cwd : Type :=
  | Raised (e : string)
  | NotAllowed (working_dir : string)
  | Chosen (cwd : option Path).

Definition choose_cwd (working_dir : option string) : Cwd :=
  match working_dir with
  | Some wd =>
      if truthy wd then
        match resolve wd with
        | inl e => Raised e
        | inr cwd =>
            if negb (is_path_allowed (to_str cwd)) then NotAllowed wd
            else Chosen (Some cwd)
        end
      else Chosen None
  | None => Chosen None
  end.

(** The [try] block of [execute_shell]: spawn, wait within the time
    limit, kill on expiry, decode and cut the two streams. *)
Definition run_shell (command : string) (cwd : option Path) (timeout : Z) (os : OS)
  : Result * OS :=
  match shell command cwd (files os) with
  | inl e => (failed e, os)
  | inr process =>
      let '(pid, os1) := spawn (files os) os in
      if completes_within timeout process then
        let output := truncated (LF_s +:+ "... (output truncated)") (stdout process) in
        let error := truncated (LF_s +:+ "... (error truncated)") (stderr process) in
        ({| status := if (returncode process =? 0)%Z then "completed" else "failed";
            output := Val output;
            error := if truthy error then Val error else Null;
            exit_code := Val (returncode process) |},
         exited pid (returncode process) (leaves process) os1)
      else
        ({| status := "timeout";
            output := Absent;
            error := Val ("Command timed out after " +:+ pretty timeout +:+ " seconds");
            exit_code := Val (-1)%Z |},
         kill pid (leaves process) os1)
  end.

(** [execute_shell(command, working_dir, timeout)] *)
Definition execute_shell (command : string) (working_dir : option string)
    (timeout : Z) (os : OS) : Exc (Result * OS) :=
  match choose_cwd working_dir with
  | Raised e => inl e
  | NotAllowed wd =>
      inr ({| status := "failed"; output := Absent;
              error := Val ("Working directory not allowed: " +:+ wd);
              exit_code := Val 1%Z |}, os)
  | Chosen cwd => inr (run_shell command cwd timeout os)
  end.

(** [read_file(path_str)] *)
Definition read_file (path_str : string) (os : OS) : Result * OS :=
  match resolve path_str with
  | inl e => (failed e, os)
  | inr path =>
      if negb (is_path_allowed (to_str path)) then
        (failed ("Path not allowed: " +:+ path_str), os)
      else if negb (exists_ (files os) path) then
        (failed ("File not found: " +:+ path_str), os)
      else if negb (is_file (files os) path) then
        (failed ("Not a file: " +:+ path_str), os)
      else
        match read_text (files os) path with
        | inl e => (failed (strerror e), os)
        | inr content =>
            ({| status := "completed";
                output := Val (truncated (LF_s +:+ "... (content truncated)") content);
                error := Absent;
                exit_code := Val 0%Z |}, os)
        end
  end.

Definition with_files (os : OS) (fs : gmap Path Node) : OS :=
  {| files := fs; running := running os; reaped := reaped os;
     next_pid := next_pid os |}.

(** [write_file(path_str, content)] *)
Definition write_file (path_str : string) (content : string) (os : OS) : Result * OS :=
  match resolve path_str with
  | inl e => (failed e, os)
  | inr path =>
      if negb (is_path_allowed (to_str path)) then
        (failed ("Path not allowed: " +:+ path_str), os)
      else
        match mkdir (files os) (parent path) with
        | inl e => (failed (strerror e), os)
        | inr fs1 =>
            match write_text fs1 path content with
            | inl (e, fs2) => (failed e, with_files os fs2)
            | inr fs2 =>
                ({| status := "completed";
                    output := Val ("Written " +:+ pretty (len content) +:+ " bytes to "
                                   +:+ to_str path);
                    error := Absent;
                    exit_code := Val 0%Z |}, with_files os fs2)
            end
        end
  end.

(** One line of [list_dir]: type, size, name, separated by tabs. *)
Definition entry_line (fs : gmap Path Node) (entry : Path) : string :=
  let entry_type := if is_dir fs entry then "dir" else "file" in
  let size := match fs !! entry with Some (File text) => utf8_size text | _ => 0%Z end in
  entry_type +:+ TAB_s +:+ pretty size +:+ TAB_s +:+ name entry.

(** [list_dir(path_str)] *)
Definition list_dir (path_str : string) (os : OS) : Result * OS :=
  match resolve path_str with
  | inl e => (failed e, os)
  | inr path =>
      if negb (is_path_allowed (to_str path)) then
        (failed ("Path not allowed: " +:+ path_str), os)
      else if negb (exists_ (files os) path) then
        (failed ("Directory not found: " +:+ path_str), os)
      else if negb (is_dir (files os) path) then
        (failed ("Not a directory: " +:+ path_str), os)
      else
        let entries := map (entry_line (files os))
                           (merge_sort path_le (iterdir (files os) path)) in
        ({| status := "completed"; output := Val (join_lines entries);
            error := Absent; exit_code := Val 0%Z |}, os)
  end.

End Handlers.

(** *** The vocabulary of the properties *)

(** [p] lies strictly below [root]. *)
Definition descendant (p root : Path) : Prop :=
  exists rest, rest <> [] /\ p = (root ++ rest)%list.



(** [t] is what the cap makes of the captured text [raw]: cut to the
    cap and marked when longer, untouched otherwise, never longer than
    cap and marker together. *)
Definition cut_at_cap (marker raw t : string) : Prop :=
  ((MAX_OUTPUT_SIZE < len raw)%Z ->
     t = slice_to MAX_OUTPUT_SIZE raw +:+ marker
     /\ len (slice_to MAX_OUTPUT_SIZE raw) = MAX_OUTPUT_SIZE)
  /\ ((len raw <= MAX_OUTPUT_SIZE)%Z -> t = raw)
  /\ (len t <= MAX_OUTPUT_SIZE + len marker)%Z.

(** The character [c] occurs in [s]. *)
Fixpoint occurs (c : ascii) (s : string) : bool :=
  match s with
  | EmptyString => false
  | String c' rest => Ascii.eqb c' c || occurs c rest
  end.

(** *** A reference host

    A POSIX machine without symbolic links and with one user, on which
    [resolve] is the lexical computation [pathlib] performs. *)

(** [s.split(sep)] *)
Fixpoint split_on (sep : ascii) (s : string) : list string :=
  match s with
  | EmptyString => [EmptyString]
  | String c rest =>
      if Ascii.eqb c sep then EmptyString :: split_on sep rest
      else match split_on sep rest with
           | h :: t => String c h :: t
           | [] => [String c EmptyString]
           end
  end.

(** The anchor of a path string: ["//"] for exactly two leading
    slashes, ["/"] for one or for three and more, none otherwise. *)
Definition anchor_of (s : string) : option string :=
  match s with
  | String "/" (String "/" (String "/" _)) => Some "/"
  | String "/" (String "/" _) => Some "//"
  | String "/" _ => Some "/"
  | _ => None
  end.

(** [Path(s)]: empty components and ["."] are dropped. *)
Definition parse (s : string) : Path :=
  let names := filter (fun n => n <> EmptyString /\ n <> ".") (split_on "/" s) in
  match anchor_of s with
  | Some a => a :: names
  | None => names
  end.

(** [path.expanduser()] with the single user whose home is [home_dir]. *)
Definition expanduser (home_dir : Path) (p : Path) : Exc Path :=
  match p with
  | String "~" user :: rest =>
      if truthy user then inl "Could not determine home directory."
      else inr (home_dir ++ rest)%list
  | _ => inr p
  end.

(** Folding [".."] into the components walked so far (deepest first);
    the anchor, last of the list, is never popped. *)
Fixpoint walk (seen : list string) (names : list string) : list string :=
  match names with
  | [] => seen
  | n :: rest =>
      if bool_decide (n = "..") then
        match seen with
        | _ :: (_ :: _) as up => walk up rest
        | _ => walk seen rest
        end
      else walk (n :: seen) rest
  end.

(** [path.resolve()] from the working directory [cwd]; [realpath]
    starts from a single slash, also when the path has two. *)
Definition lexical_resolve (cwd : Path) (p : Path) : Path :=
  match p with
  | a :: names => if is_absolute p then rev (walk ["/"] names)
                  else rev (walk (rev cwd) p)
  | [] => cwd
  end.

Definition posix_resolve (home_dir cwd : Path) (s : string) : Exc Path :=
  match expanduser home_dir (parse s) with
  | inl e => inl e
  | inr p => inr (lexical_resolve cwd p)
  end.

(** A shell that knows three commands. *)
Definition toy_shell (command : string) (cwd : option Path) (fs : gmap Path Node)
  : Exc Process :=
  if bool_decide (command = "echo hi") then
    inr {| runtime := Some 3%Z; stdout := "hi" +:+ LF_s; stderr := EmptyString;
           returncode := 0; leaves := fs |}
  else if bool_decide (command = "sleep 10") then
    inr {| runtime := Some 10000%Z; stdout := EmptyString; stderr := EmptyString;
           returncode := 0; leaves := fs |}
  else if bool_decide (command = "ls /nowhere") then
    inr {| runtime := Some 5%Z; stdout := EmptyString;
           stderr := "ls: cannot access '/nowhere': No such file or directory" +:+ LF_s;
           returncode := 2; leaves := fs |}
  else
    inr {| runtime := Some 2%Z; stdout := EmptyString;
           stderr := "sh: 1: " +:+ command +:+ ": not found" +:+ LF_s;
           returncode := 127; leaves := fs |}.

Lemma toy_shell_returncode (command : string) (cwd : option Path)
    (fs : gmap Path Node) (process : Process) :
  toy_shell command cwd fs = inr process -> (-128 < returncode process < 256)%Z.
Proof.
  unfold toy_shell. repeat case_bool_decide; intros [= <-]; simpl; lia.
Qed.

(** The agent started by its user in the home directory, on a disk
    that takes every write. *)
Definition posix_host : Host :=
  {| home := ["/"; "home"; "user"];
     resolve := posix_resolve ["/"; "home"; "user"] ["/"; "home"; "user"];
     shell := toy_shell;
     write_fault := fun _ _ => None;
     returncode_range := toy_shell_returncode |}.


(** The same agent on a disk that is full: a write raises and leaves
    the file empty. *)
Definition full_disk_host : Host :=
  {| home := ["/"; "home"; "user"];
     resolve := posix_resolve ["/"; "home"; "user"] ["/"; "home"; "user"];
     shell := toy_shell;
     write_fault := fun _ _ =>
       Some ("[Errno 28] No space left on device", EmptyString);
     returncode_range := toy_shell_returncode |}.


(** Its file tree at rest. *)
Definition tree0 : gmap Path Node :=
  list_to_map
    [ (["/"], Dir); (["/"; "tmp"], Dir); (["/"; "var"], Dir);
      (["/"; "var"; "tmp"], Dir); (["/"; "etc"], Dir);
      (["/"; "etc"; "passwd"], File "root:x:0:0:root:/root:/bin/sh");
      (["/"; "home"], Dir); (["/"; "home"; "user"], Dir);
      (["/"; "home"; "user"; "notes.txt"], File "remember the milk") ].

Definition os0 : OS :=
  {| files := tree0; running := ∅; reaped := []; next_pid := 100 |}.

(** *** [handle_command] and the message loop of [connect_and_run] *)

(** A frame read from the relay: the keys [handle_command] and the
    loop look up. *)
Module In.
Record t : Type := mk {
  type : jfield string;
  id : jfield string;
  command_type : jfield string;
  command : jfield string;
  path : jfield string;
  content : jfield string;
  working_dir : jfield string;
  timeout : jfield Z
}.
End In.

(** The frame sent back: [{"type": "result", "id": command_id, **result}]. *)
Record Reply : Type := mkReply {
  reply_id : option string;
  result : Result
}.

(** [str(x)] of an optional string inside an f-string. *)
Definition str_opt (o : option string) : string :=
  match o with Some s => s | None => "None" end.

Section Dispatch.
Context `{host : Host}.

(** [handle_command(data)]. The text arguments default to the empty
    string and the timeout to 60 when their key is missing; a key that
    is present with [null] where a handler expects a string or a number
    is outside the model (the answer is [None]). An exception that
    leaves [execute_shell] leaves [handle_command] too. *)
Definition handle_command (data : In.t) (os : OS) : option (Exc (Reply * OS)) :=
  let command_type := get (In.command_type data) in
  let command_id := get (In.id data) in
  let reply (r : Result * OS) : Reply * OS :=
    ({| reply_id := command_id; result := fst r |}, snd r) in
  if bool_decide (command_type = Some "shell") then
    match get_default (In.command data) EmptyString,
          get_default (In.timeout data) 60%Z with
    | Some command, Some timeout =>
        Some match execute_shell command (get (In.working_dir data)) timeout os with
             | inl e => inl e
             | inr r => inr (reply r)
             end
    | _, _ => None
    end
  else if bool_decide (command_type = Some "read_file") then
    match get_default (In.path data) EmptyString with
    | Some path_str => Some (inr (reply (read_file path_str os)))
    | None => None
    end
  else if bool_decide (command_type = Some "write_file") then
    match get_default (In.path data) EmptyString,
          get_default (In.content data) EmptyString with
    | Some path_str, Some content => Some (inr (reply (write_file path_str content os)))
    | _, _ => None
    end
  else if bool_decide (command_type = Some "list_dir") then
    match get_default (In.path data) EmptyString with
    | Some path_str => Some (inr (reply (list_dir path_str os)))
    | None => None
    end
  else
    Some (inr (reply (failed ("Unknown command type: " +:+ str_opt command_type), os))).

(** How the loop over the frames of one connection ends: the socket
    closes between two frames, it closes while a command is handled so
    that [ws.send] raises [ConnectionClosed], an exception leaves
    [handle_command], or a frame is outside the model. *)
Inductive Ended : Type :=
  | SocketClosed
  | SendFailed
  | Fault (e : string)
  | Unmodelled.

(** [async for message in ws]: an [execute] frame is handled and
    answered before the next frame is read; [pong] and unknown frames
    are passed over. Each frame comes with the state of the socket at
    the time its answer is sent: open, or closed in the meantime. The
    replies are listed in the order sent. *)
Fixpoint serve (messages : list (In.t * bool)) (os : OS) : list Reply * OS * Ended :=
  match messages with
  | [] => ([], os, SocketClosed)
  | (data, still_open) :: rest =>
      if bool_decide (get (In.type data) = Some "execute") then
        match handle_command data os with
        | Some (inr (reply, os')) =>
            if still_open then
              let '(replies, os'', ended) := serve rest os' in
              (reply :: replies, os'', ended)
            else ([], os', SendFailed)
        | Some (inl e) => ([], os, Fault e)
        | None => ([], os, Unmodelled)
        end
      else serve rest os
  end.

End Dispatch.

(** The three statuses of a result. *)
Definition result_status (s : string) : Prop :=
  s = "completed" \/ s = "failed" \/ s = "timeout".

(** The shape every result has: one of the three statuses, an exit
    code, exit code 0 and an output when [completed], exit code -1 when
    [timeout]. *)
Definition well_shaped (r : Result) : Prop :=
  result_status (status r)
  /\ (exists n, exit_code r = Val n)
  /\ (status r = "completed" -> exit_code r = Val 0%Z /\ exists o, output r = Val o)
  /\ (status r = "timeout" -> exit_code r = Val (-1)%Z).


(** The frames of a connection that ask for a command, in order. *)
Definition executes (messages : list In.t) : list In.t :=
  filter (fun data => get (In.type data) = Some "execute") messages.


End Agent.

(** * The relay server ([src/server/server.py]) *)
Module Server.

(** *** The [commands] table

    One record per row, one field per column. [id], [type], [status]
    and [created_at] are [NOT NULL]; the other columns may hold [NULL]. *)
Record Row : Type := mkRow {
  id : string;
  type : string;
  status : string;
  command : option string;
  path : option string;
  content : option string;
  working_dir : option string;
  timeout : Z;
  output : option string;
  error : option string;
  exit_code : option Z;
  created_at : string;
  started_at : option string;
  completed_at : option string
}.

(** [CommandStatus] *)
Definition PENDING : string := "pending".
Definition RUNNING : string := "running".
Definition COMPLETED : string := "completed".
Definition FAILED : string := "failed".
Definition TIMEOUT : string := "timeout".

(** [INSERT INTO commands (id, type, status, command, path, content,
    working_dir, timeout, created_at) VALUES (...)]: the parameters are
    bound first, [timeout] as an integer; [id] is the primary key. *)
Definition insert (row : Row) (db : list Row) : Exc (list Row) :=
  if negb (int64 (timeout row)) then inl OVERFLOW
  else if existsb (fun r => bool_decide (id r = id row)) db
  then inl "UNIQUE constraint failed: commands.id"
  else inr (db ++ [row])%list.

(** [WHERE id = ?]: [NULL] equals nothing. *)
Definition id_is (key : option string) (r : Row) : bool :=
  match key with
  | Some k => bool_decide (id r = k)
  | None => false
  end.

(** [UPDATE commands SET status = 'running', started_at = ? WHERE id = ?] *)
Definition set_running (now : string) (key : option string) (db : list Row) : list Row :=
  map (fun r =>
         if id_is key r then
           {| id := id r; type := type r; status := RUNNING;
              command := command r; path := path r; content := content r;
              working_dir := working_dir r; timeout := timeout r;
              output := output r; error := error r; exit_code := exit_code r;
              created_at := created_at r; started_at := Some now;
              completed_at := completed_at r |}
         else r) db.

(** [UPDATE commands SET status = ?, output = ?, error = ?, exit_code = ?,
    completed_at = ? WHERE id = ?] *)
Definition set_result (new_status : string) (new_output new_error : option string)
    (new_exit_code : option Z) (now : string) (key : option string)
    (db : list Row) : list Row :=
  map (fun r =>
         if id_is key r then
           {| id := id r; type := type r; status := new_status;
              command := command r; path := path r; content := content r;
              working_dir := working_dir r; timeout := timeout r;
              output := new_output; error := new_error; exit_code := new_exit_code;
              created_at := created_at r; started_at := started_at r;
              completed_at := Some now |}
         else r) db.

(** [SELECT * FROM commands WHERE id = ?] with [fetchone()] *)
Definition select (key : string) (db : list Row) : option Row :=
  find (id_is (Some key)) db.

(** [SELECT * FROM commands WHERE status = 'pending' ORDER BY created_at ASC] *)
Definition created_le (r1 r2 : Row) : Prop :=
  String.leb (created_at r1) (created_at r2) = true.

Global Instance created_le_dec : RelDecision created_le.
Proof. intros r1 r2. unfold created_le. apply _. Defined.

Definition select_pending (db : list Row) : list Row :=
  merge_sort created_le (filter (fun r => status r = PENDING) db).

(** *** Sockets

    What the relay writes to an agent, and an agent's socket: whether a
    write on it succeeds, and what has been written so far. *)
Inductive Sent : Type :=
  | Execute (id command_type : string)
            (command path content working_dir : option string) (timeout : Z)
  | Pong.

Record WebSocket : Type := mkWebSocket {
  open : bool;
  outbox : list Sent
}.

(** A frame read from the agent. *)
Module Msg.
Record t : Type := mk {
  type : jfield string;
  id : jfield string;
  status : jfield string;
  output : jfield string;
  error : jfield string;
  exit_code : jfield Z
}.
End Msg.

(** The process state: the sockets accepted so far, the manager's
    reference to the agent's socket, and the database. *)
Record State : Type := mkState {
  sockets : gmap nat WebSocket;
  agent_connection : option nat;
  db : list Row
}.

Definition with_db (st : State) (d : list Row) : State :=
  {| sockets := sockets st; agent_connection := agent_connection st; db := d |}.

(** [websocket.send_json(msg)] on socket [ws] *)
Definition send_json (ws : nat) (msg : Sent) (st : State) : Exc State :=
  match sockets st !! ws with
  | Some sock =>
      if open sock then
        let sock' := {| open := true; outbox := (outbox sock ++ [msg])%list |} in
        inr {| sockets := <[ws := sock']> (sockets st);
               agent_connection := agent_connection st; db := db st |}
      else inl "Cannot call send once a close message has been sent."
  | None => inl "WebSocket is not connected."
  end.

(** [ConnectionManager] *)
Definition connect_agent (ws : nat) (st : State) : State :=
  {| sockets := sockets st; agent_connection := Some ws; db := db st |}.

Definition disconnect_agent (st : State) : State :=
  {| sockets := sockets st; agent_connection := None; db := db st |}.

Definition is_agent_connected (st : State) : bool :=
  bool_decide (agent_connection st <> None).

Definition send_command (command_id : string) (command_data : string -> Sent)
    (st : State) : bool * State :=
  match agent_connection st with
  | None => (false, st)
  | Some ws =>
      match send_json ws (command_data command_id) st with
      | inr st' => (true, st')
      | inl _ => (false, st)
      end
  end.

(** *** [execute_command] *)

(** Python's [str.strip()]: the white space among the characters of
    the model. *)
Definition is_space (c : ascii) : bool :=
  let n := N_of_ascii c in
  ((9 <=? n) && (n <=? 13) || (28 <=? n) && (n <=? 32)
   || (n =? 133) || (n =? 160))%N.

Fixpoint lstrip (s : string) : string :=
  match s with
  | EmptyString => EmptyString
  | String c rest => if is_space c then lstrip rest else s
  end.

Fixpoint rstrip (s : string) : string :=
  match s with
  | EmptyString => EmptyString
  | String c rest =>
      match rstrip rest with
      | EmptyString => if is_space c then EmptyString else String c EmptyString
      | rest' => String c rest'
      end
  end.

Definition strip (s : string) : string := rstrip (lstrip s).

(** [row["status"] in ("completed", "failed", "timeout")] *)
Definition terminal (s : string) : bool :=
  bool_decide (s = COMPLETED) || bool_decide (s = FAILED) || bool_decide (s = TIMEOUT).

(** The text returned for a row in a terminal state; a column that
    is [NULL] and one that holds the empty string read the same. *)
Definition result_text (row : Row) : string :=
  let output := default EmptyString (output row) in
  let error := default EmptyString (error row) in
  let text := output in
  let text := if truthy error then text +:+ LF_s +:+ "[stderr]: " +:+ error else text in
  let text := match exit_code row with
              | Some n => text +:+ LF_s +:+ "[exit_code: " +:+ pretty n +:+ "]"
              | None => text
              end in
  let text := strip text in
  if truthy text then text else "(no output)".

(** What the surroundings of one call decide: the token drawn by
    [secrets.token_urlsafe], the two readings of the clock, and what the
    other tasks have written to the database by the end of each sleep
    of the polling loop. *)
Record Env : Type := mkEnv {
  token : string;
  now_created : string;
  now_started : string;
  during_sleep : nat -> list Row -> list Row
}.

(** What a call produces: the text returned (or the exception that
    left the function), the state, and the time spent in
    [asyncio.sleep], in milliseconds. *)
Record Outcome : Type := mkOutcome {
  returned : Exc string;
  state : State;
  slept : Z
}.

(** The polling loop: [n] rounds left, [k] rounds done. Each round
    sleeps half a second, reads the row, and returns if it is terminal. *)
Fixpoint poll (n k : nat) (env : Env) (command_id : string) (st : State) (slept : Z)
  : Outcome :=
  match n with
  | O => {| returned := inr "Command timed out waiting for response";
            state := st; slept := slept |}
  | S n' =>
      let st' := with_db st (during_sleep env k (db st)) in
      let slept' := (slept + 500)%Z in
      match select command_id (db st') with
      | Some row =>
          if terminal (status row)
          then {| returned := inr (result_text row); state := st'; slept := slept' |}
          else poll n' (S k) env command_id st' slept'
      | None => poll n' (S k) env command_id st' slept'
      end
  end.

(** The first half of [execute_command], up to the polling loop: it
    returns early, or leaves the state in which the caller starts to
    wait. The four optional arguments are [kwargs.get] of their names. *)
Inductive Submitted : Type :=
  | Returned (o : Outcome)
  | Waiting (st : State).

Definition new_row (env : Env) (command_type : string) (timeout : Z)
    (command path content working_dir : option string) : Row :=
  {| id := token env; type := command_type; status := PENDING;
     command := command; path := path; content := content;
     working_dir := working_dir; timeout := timeout;
     output := None; error := None; exit_code := None;
     created_at := now_created env; started_at := None;
     completed_at := None |}.

Definition submit (env : Env) (command_type : string) (timeout : Z)
    (command path content working_dir : option string) (st : State) : Submitted :=
  if negb (is_agent_connected st) then
    Returned
      {| returned := inr "Error: Mac agent is not connected. Please ensure the agent is running.";
         state := st; slept := 0 |}
  else
    let command_id := token env in
    match insert (new_row env command_type timeout command path content working_dir)
                 (db st) with
    | inl e => Returned {| returned := inl e; state := st; slept := 0 |}
    | inr db1 =>
        let '(success, st2) :=
          send_command command_id
            (fun i => Execute i command_type command path content working_dir timeout)
            (with_db st db1) in
        if negb success then
          Returned {| returned := inr "Error: Failed to send command to agent";
                      state := st2; slept := 0 |}
        else
          Waiting (with_db st2 (set_running (now_started env) (Some command_id) (db st2)))
    end.

(** [execute_command(command_type, timeout, **kwargs)] *)
Definition execute_command (env : Env) (command_type : string) (timeout : Z)
    (command path content working_dir : option string) (st : State) : Outcome :=
  match submit env command_type timeout command path content working_dir st with
  | Returned o => o
  | Waiting st3 => poll (Z.to_nat (timeout * 2 + 10)) 0 env (token env) st3 0
  end.

(** [call_tool(name, arguments)] for the four tools that submit a
    command, with arguments that satisfy the declared schema; an
    exception becomes the text of an error. *)
Inductive ToolCall : Type :=
  | run_shell_command (command : string) (working_dir : option string)
                      (timeout : option Z)
  | read_file (path : string)
  | write_file (path content : string)
  | list_directory (path : string).

Definition text_of (o : Outcome) : string :=
  match returned o with
  | inr text => text
  | inl e => "Error: " +:+ e
  end.

Definition call_tool (env : Env) (call : ToolCall) (st : State) : string * State :=
  let o :=
    match call with
    | run_shell_command c wd t =>
        execute_command env "shell" (default 60%Z t) (Some c) None None wd st
    | read_file p => execute_command env "read_file" 60 None (Some p) None None st
    | write_file p c => execute_command env "write_file" 60 None (Some p) (Some c) None st
    | list_directory p => execute_command env "list_dir" 60 None (Some p) None None st
    end in
  (text_of o, state o).

(** *** [agent_websocket], after admission *)

(** The backlog sent to an agent that has just connected: every pending
    row is pushed, whatever the push returns, and set to running. *)
Fixpoint redeliver (clock : nat -> string) (k : nat) (pending : list Row) (st : State)
  : State :=
  match pending with
  | [] => st
  | row :: rest =>
      let '(_, st1) :=
        send_command (id row)
          (fun i => Execute i (type row) (command row) (path row) (content row)
                            (working_dir row) (timeout row)) st in
      redeliver clock (S k) rest
        (with_db st1 (set_running (clock k) (Some (id row)) (db st1)))
  end.

Definition on_connect (clock : nat -> string) (ws : nat) (st : State) : State :=
  let st1 := connect_agent ws st in
  redeliver clock 0 (select_pending (db st1)) st1.

(** An optional integer that can be bound to a statement. *)
Definition bindable (n : option Z) : bool :=
  match n with Some n => int64 n | None => true end.

(** One round of the receive loop on socket [ws], reading the frame
    [data] at time [now]: the state, and whether the loop goes on. An
    exception ends the loop through [disconnect_agent]: binding an exit
    code that does not fit is one, whatever the id; storing [NULL] as
    the status of a row is another, [status] being [NOT NULL]. *)
Definition on_message (ws : nat) (now : string) (data : Msg.t) (st : State)
  : State * bool :=
  if bool_decide (get (Msg.type data) = Some "result") then
    if negb (bindable (get (Msg.exit_code data))) then (disconnect_agent st, false)
    else
    match get_default (Msg.status data) "completed" with
    | Some new_status =>
        (with_db st
           (set_result new_status (get (Msg.output data)) (get (Msg.error data))
              (get (Msg.exit_code data)) now (get (Msg.id data)) (db st)),
         true)
    | None =>
        if existsb (id_is (get (Msg.id data))) (db st)
        then (disconnect_agent st, false)
        else (st, true)
    end
  else if bool_decide (get (Msg.type data) = Some "ping") then
    match send_json ws Pong st with
    | inr st' => (st', true)
    | inl _ => (disconnect_agent st, false)
    end
  else (st, true).

(** *** The vocabulary of the properties *)

(** The database as the [n]-th round of the polling loop reads it,
    counting from round [k]. *)
Fixpoint db_after (env : Env) (k n : nat) (d : list Row) : list Row :=
  match n with
  | O => d
  | S n' => db_after env (S k) n' (during_sleep env k d)
  end.

(** What a caller is shown of a row, its status apart. *)
Definition results (r : Row) : string * option string * option string * option Z :=
  (id r, output r, error r, exit_code r).

(** The row of [command_id] is there and terminal. *)
Definition seen_terminal (command_id : string) (d : list Row) : bool :=
  match select command_id d with
  | Some row => terminal (status row)
  | None => false
  end.

(** *** A reference state: one agent on an open socket, an empty
    table, and surroundings in which no result ever arrives. *)
Definition st0 : State :=
  {| sockets := {[ 1 := {| open := true; outbox := [] |} ]};
     agent_connection := Some 1;
     db := [] |}.


(** A command that has completed, and the result frame of an agent
    that leaves the status out. *)
Definition done_row : Row :=
  {| id := "Zk3v9Qw1LmNp4TyB"; type := "shell"; status := COMPLETED;
     command := Some "echo hi"; path := None; content := None;
     working_dir := None; timeout := 60;
     output := Some ("hi" +:+ LF_s); error := None; exit_code := Some 0%Z;
     created_at := "2025-01-01T00:00:00+00:00";
     started_at := Some "2025-01-01T00:00:01+00:00";
     completed_at := Some "2025-01-01T00:00:02+00:00" |}.

Definition bare_result (command_id : string) : Msg.t :=
  {| Msg.type := Val "result"; Msg.id := Val command_id; Msg.status := Absent;
     Msg.output := Val ("hi" +:+ LF_s); Msg.error := Null;
     Msg.exit_code := Val 0%Z |}.

Definition quiet : Env :=
  {| token := "q7Rk2mX9vLpA0sWd";
     now_created := "2025-01-01T00:00:00+00:00";
     now_started := "2025-01-01T00:00:01+00:00";
     during_sleep := fun _ d => d |}.

(** *** Admission of an agent

    An address as [ipaddress.ip_address] parses it, a network as its
    address and mask, and what is left to the library: the parser
    ([None] for the [ValueError] of a text that is no address) and
    [is_loopback] on an IPv6 address. *)
Inductive IP : Type :=
  | IPv4 (n : Z)
  | IPv6 (n : Z).

Record Network : Type := mkNetwork {
  network_address : Z;
  netmask : Z
}.

Record Ipaddress : Type := mkIpaddress {
  ip_address : string -> option IP;
  is_loopback6 : Z -> bool
}.

(** [ip in network], for an address of the network's version:
    [other._ip & self.netmask._ip == self.network_address._ip] *)
Definition contains (net : Network) (n : Z) : bool :=
  (Z.land n (netmask net) =? network_address net)%Z.

(** [100.64.0.0/10], [fdaa::/16], and the IPv4 loopback [127.0.0.0/8] *)
Definition TAILSCALE_NETWORK : Network :=
  {| network_address := 0x64400000; netmask := 0xFFC00000 |}.
Definition FLYIO_NETWORK : Network :=
  {| network_address := Z.shiftl 0xfdaa 112; netmask := Z.shiftl 0xffff 112 |}.
Definition LOOPBACK_NETWORK : Network :=
  {| network_address := 0x7F000000; netmask := 0xFF000000 |}.

Definition is_loopback (lib : Ipaddress) (ip : IP) : bool :=
  match ip with
  | IPv4 n => contains LOOPBACK_NETWORK n
  | IPv6 n => is_loopback6 lib n
  end.

(** [is_private_network_ip(ip_str)] *)
Definition is_private_network_ip (lib : Ipaddress) (ip_str : string) : bool :=
  match ip_address lib ip_str with
  | Some ip =>
      if is_loopback lib ip then true
      else match ip with
           | IPv4 n => contains TAILSCALE_NETWORK n
           | IPv6 n => contains FLYIO_NETWORK n
           end
  | None => false
  end.

(** [forwarded.split(",")[0]]: the text before the first comma. *)
Fixpoint before_comma (s : string) : string :=
  match s with
  | EmptyString => EmptyString
  | String c rest => if Ascii.eqb c ","%char then EmptyString
                     else String c (before_comma rest)
  end.

(** [get_client_ip(websocket)], from the [x-forwarded-for] header
    (missing: [None]) and the host of [websocket.client] (no client:
    [None]). *)
Definition get_client_ip (forwarded client : option string) : string :=
  let forwarded := default EmptyString forwarded in
  if truthy forwarded then strip (before_comma forwarded)
  else default EmptyString client.

(** [secrets.compare_digest] on two strings: it refuses a character
    outside ASCII. *)
Fixpoint is_ascii (s : string) : bool :=
  match s with
  | EmptyString => true
  | String c rest => (N_of_ascii c <? 128)%N && is_ascii rest
  end.

Definition compare_digest (a b : string) : Exc bool :=
  if is_ascii a && is_ascii b then inr (bool_decide (a = b))
  else inl "comparing strings with non-ASCII characters is not supported".

(** The settings read from the environment. *)
Record Config : Type := mkConfig {
  AUTH_TOKEN : string;
  REQUIRE_PRIVATE_NETWORK : bool
}.

(** What the connecting socket shows: the forwarded-for header, the
    peer's host, and the [token] query parameter. *)
Record Handshake : Type := mkHandshake {
  forwarded_for : option string;
  client_host : option string;
  query_token : option string
}.

(** How the two gates of [agent_websocket] end: the socket is closed
    with a code and a reason, the comparison raises, or the agent is in. *)
Inductive Admission : Type :=
  | Closed (code : Z) (reason : string)
  | Crashed (e : string)
  | Accepted.

Definition admission (cfg : Config) (lib : Ipaddress) (h : Handshake) : Admission :=
  if REQUIRE_PRIVATE_NETWORK cfg
     && negb (is_private_network_ip lib
                (get_client_ip (forwarded_for h) (client_host h)))
  then Closed 4003 "Forbidden: Private network required"
  else
    match query_token h with
    | None => Closed 4003 "Forbidden"
    | Some token =>
        if negb (truthy token) then Closed 4003 "Forbidden"
        else match compare_digest token (AUTH_TOKEN cfg) with
             | inl e => Crashed e
             | inr true => Accepted
             | inr false => Closed 4003 "Forbidden"
             end
    end.

(** The receive loop on socket [ws] over the frames that arrive, each
    with the reading of the clock at its arrival; when no frame is left
    the socket has closed, and [WebSocketDisconnect] ends the loop. *)
Fixpoint receive_loop (ws : nat) (frames : list (string * Msg.t)) (st : State) : State :=
  match frames with
  | [] => disconnect_agent st
  | (now, data) :: rest =>
      let '(st', go_on) := on_message ws now data st in
      if go_on then receive_loop ws rest st' else st'
  end.

(** [agent_websocket(websocket)] *)
Definition agent_websocket (cfg : Config) (lib : Ipaddress) (h : Handshake)
    (clock : nat -> string) (ws : nat) (frames : list (string * Msg.t))
    (st : State) : State :=
  match admission cfg lib h with
  | Accepted => receive_loop ws frames (on_connect clock ws st)
  | _ => st
  end.

(** *** [get_commands] *)

(** [s[n:]] *)
Fixpoint slice_from (n : nat) (s : string) : string :=
  match n, s with
  | O, _ => s
  | S n', String _ rest => slice_from n' rest
  | S _, EmptyString => EmptyString
  end.

(** One entry of the listing. *)
Module Summary.
Record t : Type := mk {
  id : string;
  type : string;
  status : string;
  command : option string;
  path : option string;
  output : option string;
  error : option string;
  exit_code : option Z;
  created_at : string
}.
End Summary.

Definition summary (row : Row) : Summary.t :=
  {| Summary.id := id row; Summary.type := type row; Summary.status := status row;
     Summary.command := command row; Summary.path := path row;
     Summary.output :=
       match output row with
       | Some o => if truthy o then Some (slice_to 500 o) else None
       | None => None
       end;
     Summary.error := error row; Summary.exit_code := exit_code row;
     Summary.created_at := created_at row |}.

(** [ORDER BY created_at DESC LIMIT ?]: a negative limit is no limit. *)
Definition created_ge (r1 r2 : Row) : Prop :=
  String.leb (created_at r2) (created_at r1) = true.

Global Instance created_ge_dec : RelDecision created_ge.
Proof. intros r1 r2. unfold created_ge. apply _. Defined.

Definition select_recent (limit : Z) (db : list Row) : list Row :=
  let rows := merge_sort created_ge db in
  if (limit <? 0)%Z then rows else take (Z.to_nat limit) rows.

Inductive Response : Type :=
  | Unauthorized
  | Listing (rows : list Summary.t)
  | ServerError (e : string).

(** [get_commands(request)], from the [Authorization] header (missing:
    [None]) and from [int] of the [limit] parameter, which raises on a
    text that is no number. *)
Definition get_commands (cfg : Config) (authorization : option string)
    (limit : Exc Z) (db : list Row) : Response :=
  let auth := default EmptyString authorization in
  if negb (String.prefix "Bearer " auth) then Unauthorized
  else match compare_digest (slice_from 7 auth) (AUTH_TOKEN cfg) with
       | inl e => ServerError e
       | inr false => Unauthorized
       | inr true =>
           match limit with
           | inl e => ServerError e
           | inr n => if negb (int64 n) then ServerError OVERFLOW
                      else Listing (map summary (select_recent n db))
           end
       end.

(** *** More vocabulary of the properties *)

(** No two rows of the table have the same id. *)
Definition unique_ids (d : list Row) : Prop := NoDup (map id d).

(** The row [r] once set to running at time [now]. *)
Definition started (now : string) (r : Row) : Row :=
  {| id := id r; type := type r; status := RUNNING;
     command := command r; path := path r; content := content r;
     working_dir := working_dir r; timeout := timeout r;
     output := output r; error := error r; exit_code := exit_code r;
     created_at := created_at r; started_at := Some now;
     completed_at := completed_at r |}.

(** The row [r] once a result has been stored in it at time [now]. *)
Definition finished (new_status : string) (new_output new_error : option string)
    (new_exit_code : option Z) (now : string) (r : Row) : Row :=
  {| id := id r; type := type r; status := new_status;
     command := command r; path := path r; content := content r;
     working_dir := working_dir r; timeout := timeout r;
     output := new_output; error := new_error; exit_code := new_exit_code;
     created_at := created_at r; started_at := started_at r;
     completed_at := Some now |}.

(** The number of the IPv4 address [a.b.c.d]. *)
Definition ipv4 (a b c d : Z) : Z := (((a * 256 + b) * 256 + c) * 256 + d)%Z.

(** A library for the reference state: it parses three texts, and
    counts [::1] alone as the IPv6 loopback. *)
Definition toy_ipaddress : Ipaddress :=
  {| ip_address := fun s =>
       if bool_decide (s = "100.101.102.103") then Some (IPv4 (ipv4 100 101 102 103))
       else if bool_decide (s = "203.0.113.9") then Some (IPv4 (ipv4 203 0 113 9))
       else if bool_decide (s = "fdaa:0:1::2")
            then Some (IPv6 (Z.shiftl 0xfdaa 112 + Z.shiftl 1 80 + 2))
       else None;
     is_loopback6 := fun n => (n =? 1)%Z |}.

Definition config0 : Config :=
  {| AUTH_TOKEN := "s3cr3t-t0ken"; REQUIRE_PRIVATE_NETWORK := true |}.

(** The frame pushed for a row of the backlog. *)
Definition execute_frame (row : Row) : Sent :=
  Execute (id row) (type row) (command row) (path row) (content row)
          (working_dir row) (timeout row).

(** What has been written to socket [ws]. *)
Definition written (ws : nat) (st : State) : list Sent :=
  match sockets st !! ws with
  | Some sock => outbox sock
  | None => []
  end.

(** No white space at either end of [s]. *)
Definition trimmed (s : string) : Prop := strip s = s.

End Server.

(** * The wire between the two programs

    What [send_json] writes is what [json.loads] reads on the other
    side: an absent value travels as [null]. *)
Module Wire.

Definition nullable {A} (o : option A) : jfield A :=
  match o with Some a => Val a | None => Null end.

(** The relay's frame as the agent reads it. *)
Definition to_agent (msg : Server.Sent) : Agent.In.t :=
  match msg with
  | Server.Execute i command_type command path content working_dir timeout =>
      {| Agent.In.type := Val "execute"; Agent.In.id := Val i;
         Agent.In.command_type := Val command_type;
         Agent.In.command := nullable command; Agent.In.path := nullable path;
         Agent.In.content := nullable content;
         Agent.In.working_dir := nullable working_dir;
         Agent.In.timeout := Val timeout |}
  | Server.Pong =>
      {| Agent.In.type := Val "pong"; Agent.In.id := Absent;
         Agent.In.command_type := Absent; Agent.In.command := Absent;
         Agent.In.path := Absent; Agent.In.content := Absent;
         Agent.In.working_dir := Absent; Agent.In.timeout := Absent |}
  end.

(** The agent's reply as the relay reads it. *)
Definition to_relay (reply : Agent.Reply) : Server.Msg.t :=
  {| Server.Msg.type := Val "result";
     Server.Msg.id := nullable (Agent.reply_id reply);
     Server.Msg.status := Val (Agent.status (Agent.result reply));
     Server.Msg.output := Agent.output (Agent.result reply);
     Server.Msg.error := Agent.error (Agent.result reply);
     Server.Msg.exit_code := Agent.exit_code (Agent.result reply) |}.

(** Surroundings in which the answer to [echo hi] is stored during the
    first sleep of the caller. *)
Definition echo_env : Server.Env :=
  {| Server.token := "q7Rk2mX9vLpA0sWd";
     Server.now_created := "2025-01-01T00:00:00+00:00";
     Server.now_started := "2025-01-01T00:00:01+00:00";
     Server.during_sleep := fun k d =>
       if bool_decide (k = 0%nat) then
         Server.set_result "completed" (Some ("hi" +:+ LF_s)) None (Some 0%Z)
           "2025-01-01T00:00:02+00:00" (Some "q7Rk2mX9vLpA0sWd") d
       else d |}.

End Wire.

(** * Properties of the agent *)
Module AgentProofs.
Import Agent.

(** ** Lengths and slices *)

Lemma len_nonneg s : (0 <= len s)%Z.
Proof. unfold len. lia. Qed.

Lemma len_String c s : len (String c s) = (1 + len s)%Z.
Proof. unfold len. simpl String.length. lia. Qed.

Lemma len_app a b : len (a +:+ b) = (len a + len b)%Z.
Proof.
  induction a as [|c a IH].
  - change (EmptyString +:+ b) with b. change (len EmptyString) with 0%Z. lia.
  - change (String c a +:+ b) with (String c (a +:+ b)).
    rewrite !len_String, IH. lia.
Qed.

Lemma len_slice_to s : forall n, (0 <= n)%Z -> len (slice_to n s) = Z.min n (len s).
Proof.
  induction s as [|c s IH]; intros n Hn; simpl.
  - unfold len. simpl. lia.
  - destruct (Z.leb_spec n 0) as [Hle|Hgt].
    + rewrite len_String. pose proof (len_nonneg s). unfold len at 1. simpl. lia.
    + rewrite !len_String, IH by lia. lia.
Qed.

Lemma truncated_cut marker raw : cut_at_cap marker raw (truncated marker raw).
Proof.
  unfold cut_at_cap, truncated.
  assert (Hcap : (0 <= MAX_OUTPUT_SIZE)%Z) by (unfold MAX_OUTPUT_SIZE; lia).
  pose proof (len_slice_to raw MAX_OUTPUT_SIZE Hcap) as Hs.
  pose proof (len_nonneg marker) as Hm.
  destruct (Z.gtb_spec (len raw) MAX_OUTPUT_SIZE) as [Hgt|Hle];
    (split; [intros Hlt | split; [intros Hle' |]]).
  - split; [reflexivity | rewrite Hs; lia].
  - lia.
  - rewrite len_app, Hs. lia.
  - lia.
  - reflexivity.
  - lia.
Qed.

(** ** Ancestors are proper prefixes *)

Lemma parent_removelast (p : Path) : parent p <> p -> parent p = removelast p /\ p <> [].
Proof.
  destruct p as [|a [|b p]]; intros Hne.
  - by destruct Hne.
  - split; [|congruence]. unfold parent in *.
    destruct (is_absolute [a]); [by destruct Hne | reflexivity].
  - split; [reflexivity|congruence].
Qed.

Lemma ancestors_prefix fuel : forall (p q : Path),
  q ∈ ancestors fuel p -> descendant p q.
Proof.
  induction fuel as [|fuel IH]; intros p q Hin; simpl in Hin.
  - by apply elem_of_nil in Hin.
  - case_bool_decide as Hp; [by apply elem_of_nil in Hin|].
    destruct (parent_removelast p Hp) as [Hrm Hnil].
    assert (Hsplit : p = (parent p ++ [List.last p EmptyString])%list).
    { rewrite Hrm. by apply app_removelast_last. }
    apply elem_of_cons in Hin as [->|Hin].
    + exists [List.last p EmptyString]. split; [congruence|exact Hsplit].
    + destruct (IH _ _ Hin) as (rest & Hrest & Heq).
      exists (rest ++ [List.last p EmptyString])%list. split.
      * intros E. by apply app_eq_nil in E as [_ ?].
      * rewrite Hsplit at 1. rewrite Heq at 1. by rewrite <- app_assoc.
Qed.

Lemma parents_prefix (p q : Path) : q ∈ parents p -> descendant p q.
Proof. apply ancestors_prefix. Qed.

Section Gate.
Context `{host : Host}.












End Gate.

(** ** The properties on the reference host *)









(** ** A text that is not capped *)









End AgentProofs.

(** * Properties of the relay server *)
Module ServerProofs.
Import Server.

(** ** The updates of the store *)

Lemma set_running_lookup (now : string) (key : option string) (d : list Row)
    (i : nat) (r : Row) :
  d !! i = Some r ->
  exists r',
    set_running now key d !! i = Some r'
    /\ id r' = id r /\ output r' = output r /\ error r' = error r
    /\ exit_code r' = exit_code r
    /\ (id_is key r = false -> r' = r)
    /\ (id_is key r = true -> status r' = RUNNING /\ started_at r' = Some now).
Proof.
  intros Hi. unfold set_running. rewrite list_lookup_fmap, Hi. simpl.
  eexists. split; [reflexivity|].
  destruct (id_is key r); repeat split; done.
Qed.

Lemma set_running_missing (now : string) (key : option string) (d : list Row) :
  (forall r, r ∈ d -> id_is key r = false) -> set_running now key d = d.
Proof.
  intros Hno. unfold set_running.
  induction d as [|r d IH]; [done|]. simpl.
  rewrite (Hno r) by left. f_equal. apply IH. intros r' Hr'. apply Hno. by right.
Qed.

Lemma set_running_results (now : string) (key : option string) (d : list Row) :
  map results (set_running now key d) = map results d.
Proof.
  unfold set_running. rewrite map_map. apply map_ext.
  intros r. by destruct (id_is key r).
Qed.

Lemma send_command_db (command_id : string) (command_data : string -> Sent)
    (st : State) :
  db (snd (send_command command_id command_data st)) = db st.
Proof.
  unfold send_command, send_json. repeat case_match; by simplify_eq.
Qed.

Lemma redeliver_results (clock : nat -> string) (pending : list Row) :
  forall (k : nat) (st : State),
    map results (db (redeliver clock k pending st)) = map results (db st).
Proof.
  induction pending as [|row rest IH]; intros k st; [done|].
  simpl. destruct (send_command _ _ st) as [ok st1] eqn:Hsend.
  rewrite IH. simpl. rewrite set_running_results.
  by rewrite <- (send_command_db (id row)
    (fun i => Execute i (type row) (command row) (path row) (content row)
                      (working_dir row) (timeout row)) st), Hsend.
Qed.

(** C2, as the code has it. The update that marks a command as
    running changes, in the rows of that id and whatever their status,
    [status] (to [running]) and [started_at]; it never changes an
    [output], an [error] or an [exit_code], it leaves the rows of other
    ids as they are, and it leaves the whole table as it is when no row
    has that id. The same holds of the updates an agent's connection
    makes on the backlog. *)
Theorem set_running_effect (now : string) (key : option string) (d : list Row) :
  (forall (i : nat) (r : Row),
      d !! i = Some r ->
      exists r',
        set_running now key d !! i = Some r'
        /\ id r' = id r /\ output r' = output r /\ error r' = error r
        /\ exit_code r' = exit_code r
        /\ (id_is key r = false -> r' = r)
        /\ (id_is key r = true -> status r' = RUNNING /\ started_at r' = Some now))
  /\ ((forall r, r ∈ d -> id_is key r = false) -> set_running now key d = d)
  /\ (forall (clock : nat -> string) (ws : nat) (st : State),
        map results (db (on_connect clock ws st)) = map results (db st)).
Proof.
  split; [|split].
  - intros i r. apply set_running_lookup.
  - apply set_running_missing.
  - intros clock ws st. unfold on_connect. by rewrite redeliver_results.
Qed.

(** ** The first half of [execute_command] *)

Lemma submit_returned_slept env command_type timeout command path content
    working_dir st o :
  submit env command_type timeout command path content working_dir st = Returned o ->
  slept o = 0%Z.
Proof.
  unfold submit. repeat case_match; intros; by simplify_eq.
Qed.

(** C3. While no agent is connected, every tool that submits a command
    returns at once the fixed text saying so, and leaves the state, and
    with it the table of commands, as it was: no row is created. *)
Theorem not_connected_no_record (st : State) :
  agent_connection st = None ->
  (forall env command_type timeout command path content working_dir,
      execute_command env command_type timeout command path content working_dir st =
        {| returned := inr "Error: Mac agent is not connected. Please ensure the agent is running.";
           state := st; slept := 0 |})
  /\ (forall env call,
        call_tool env call st =
          ("Error: Mac agent is not connected. Please ensure the agent is running.", st)).
Proof.
  intros Hnone.
  assert (Hexec : forall env command_type timeout command path content working_dir,
      execute_command env command_type timeout command path content working_dir st =
        {| returned := inr "Error: Mac agent is not connected. Please ensure the agent is running.";
           state := st; slept := 0 |}).
  { intros. unfold execute_command, submit, is_agent_connected.
    rewrite Hnone. by rewrite bool_decide_eq_false_2 by (intros E; by apply E). }
  split; [exact Hexec|].
  intros env call. unfold call_tool. destruct call; by rewrite Hexec.
Qed.







(** ** The polling loop *)

Lemma poll_rounds (n : nat) : forall k env command_id st s,
  exists rounds : nat,
    (rounds <= n)%nat
    /\ slept (poll n k env command_id st s) = (s + 500 * Z.of_nat rounds)%Z.
Proof.
  induction n as [|n IH]; intros k env command_id st s; simpl.
  - exists 0%nat. split; [lia|]. simpl. lia.
  - set (st' := with_db st (during_sleep env k (db st))).
    destruct (IH (S k) env command_id st' (s + 500)%Z) as (m & Hm & Hs).
    assert (Hmore : exists rounds : nat,
               (rounds <= S n)%nat
               /\ slept (poll n (S k) env command_id st' (s + 500)) =
                    (s + 500 * Z.of_nat rounds)%Z).
    { exists (S m). split; [lia|]. rewrite Hs. lia. }
    destruct (select command_id (during_sleep env k (db st))) as [row|];
      [|exact Hmore].
    destruct (terminal (status row)); [|exact Hmore].
    exists 1%nat. split; [lia|]. simpl. lia.
Qed.

Lemma poll_exhausted (n : nat) : forall k env command_id st s,
  (forall j, (j < n)%nat ->
             seen_terminal command_id (db_after env k (S j) (db st)) = false) ->
  poll n k env command_id st s =
    {| returned := inr "Command timed out waiting for response";
       state := with_db st (db_after env k n (db st));
       slept := (s + 500 * Z.of_nat n)%Z |}.
Proof.
  induction n as [|n IH]; intros k env command_id st s Hnever.
  - simpl. destruct st. unfold with_db. simpl. f_equal. lia.
  - simpl poll. set (st' := with_db st (during_sleep env k (db st))).
    pose proof (Hnever 0%nat ltac:(lia)) as H0. simpl in H0.
    unfold seen_terminal in H0. change (db st') with (during_sleep env k (db st)).
    assert (Hrest : poll n (S k) env command_id st' (s + 500) =
                    {| returned := inr "Command timed out waiting for response";
                       state := with_db st (db_after env k (S n) (db st));
                       slept := (s + 500 * Z.of_nat (S n))%Z |}).
    { rewrite IH.
      - f_equal. lia.
      - intros j Hj. apply (Hnever (S j)). lia. }
    destruct (select command_id (during_sleep env k (db st))) as [row|];
      [|exact Hrest].
    by rewrite H0.
Qed.

(** C1, as the code has it. The wait of [execute_command] is made of
    at most [timeout * 2 + 10] rounds, each one a sleep of half a second
    followed by one reading of the row: for every call the time slept
    is 500 ms times the number of rounds made, hence at most
    500 ms * (timeout * 2 + 10), that is [timeout + 5] seconds. When a
    command has been pushed and no round finds its row in a terminal
    state, the call returns the fixed text of the timed-out wait after
    exactly that long. *)
Theorem bounded_wait env command_type timeout command path content working_dir st :
  let o := execute_command env command_type timeout command path content working_dir st in
  (exists rounds : nat,
      (rounds <= Z.to_nat (timeout * 2 + 10))%nat
      /\ slept o = (500 * Z.of_nat rounds)%Z)
  /\ (0 <= slept o <= 500 * Z.max 0 (timeout * 2 + 10))%Z
  /\ (forall st3,
        submit env command_type timeout command path content working_dir st
          = Waiting st3 ->
        (forall j, (j < Z.to_nat (timeout * 2 + 10))%nat ->
                   seen_terminal (token env) (db_after env 0 (S j) (db st3)) = false) ->
        returned o = inr "Command timed out waiting for response"
        /\ slept o = (500 * Z.max 0 (timeout * 2 + 10))%Z
        /\ ((-5 <= timeout)%Z -> slept o = (1000 * (timeout + 5))%Z)).
Proof.
  intros o.
  assert (Hrounds : exists rounds : nat,
             (rounds <= Z.to_nat (timeout * 2 + 10))%nat
             /\ slept o = (500 * Z.of_nat rounds)%Z).
  { subst o. unfold execute_command.
    destruct (submit env command_type timeout command path content working_dir st)
      as [o'|st3] eqn:Hsub.
    - exists 0%nat. split; [lia|]. by rewrite (submit_returned_slept _ _ _ _ _ _ _ _ _ Hsub).
    - destruct (poll_rounds (Z.to_nat (timeout * 2 + 10)) 0 env (token env) st3 0)
        as (m & Hm & Hs).
      exists m. split; [exact Hm|]. rewrite Hs. lia. }
  split; [exact Hrounds|]. split.
  - destruct Hrounds as (m & Hm & ->). lia.
  - intros st3 Hsub Hnever. subst o. unfold execute_command. rewrite Hsub.
    rewrite (poll_exhausted _ _ _ _ _ _ Hnever). simpl.
    split; [reflexivity|]. split; lia.
Qed.

(** ** The receive loop *)


(** ** The properties on the reference state *)

Lemma db_after_quiet (k n : nat) (d : list Row) : db_after quiet k n d = d.
Proof. revert k. induction n as [|n IH]; intros k; [done|]. simpl. apply IH. Qed.

(** A call with the default timeout that nobody answers. *)
Lemma bounded_wait_witness :
  returned (execute_command quiet "shell" 60 (Some "sleep 1000") None None None st0)
    = inr "Command timed out waiting for response"
  /\ slept (execute_command quiet "shell" 60 (Some "sleep 1000") None None None st0)
     = 65000%Z.
Proof.
  destruct (bounded_wait quiet "shell" 60 (Some "sleep 1000") None None None st0)
    as (_ & _ & Hwait).
  destruct (Hwait
    (match submit quiet "shell" 60 (Some "sleep 1000") None None None st0 with
     | Waiting s => s
     | Returned _ => st0
     end)) as (Htext & Hslept & _).
  - reflexivity.
  - intros j _. rewrite db_after_quiet. reflexivity.
  - split; [exact Htext | exact Hslept].
Defined.

(** C1, as the specification states it, fails: with an agent
    connected and no result arriving, a call with a timeout of 60 seconds gives up after
    65 seconds of sleep and one with a timeout of 0 after 5 seconds, so
    the longest wait is not twice the timeout plus a fixed grace. *)
Lemma bounded_wait_counterexample :
  slept (execute_command quiet "shell" 60 (Some "sleep 1000") None None None st0)
    = 65000%Z
  /\ slept (execute_command quiet "shell" 0 (Some "sleep 1000") None None None st0)
     = 5000%Z
  /\ ~ (exists grace : Z, forall timeout : Z,
          (0 <= timeout)%Z ->
          slept (execute_command quiet "shell" timeout (Some "sleep 1000")
                   None None None st0)
          = (1000 * (timeout * 2) + grace)%Z).
Proof.
  assert (H60 : slept (execute_command quiet "shell" 60 (Some "sleep 1000")
                         None None None st0) = 65000%Z) by reflexivity.
  assert (H0 : slept (execute_command quiet "shell" 0 (Some "sleep 1000")
                        None None None st0) = 5000%Z) by reflexivity.
  split; [exact H60|]. split; [exact H0|].
  intros (grace & Hall).
  pose proof (Hall 60%Z ltac:(lia)) as E60. pose proof (Hall 0%Z ltac:(lia)) as E0.
  rewrite H60 in E60. rewrite H0 in E0. lia.
Qed.

(** The update on a table that lacks the id, and on a row that has it. *)
Lemma set_running_effect_witness :
  set_running "2025-01-01T00:00:09+00:00" (Some "absent-id") [done_row] = [done_row]
  /\ exists r',
      set_running "2025-01-01T00:00:09+00:00" (Some (id done_row)) [done_row] !! 0%nat
        = Some r'
      /\ output r' = output done_row /\ error r' = error done_row
      /\ exit_code r' = exit_code done_row /\ status r' = RUNNING.
Proof.
  split.
  - destruct (set_running_effect "2025-01-01T00:00:09+00:00" (Some "absent-id")
                [done_row]) as (_ & Hmissing & _).
    apply Hmissing. intros r Hr. apply list_elem_of_In in Hr. simpl in Hr.
    destruct Hr as [<-|[]]. reflexivity.
  - destruct (set_running_effect "2025-01-01T00:00:09+00:00" (Some (id done_row))
                [done_row]) as (Hrows & _ & _).
    destruct (Hrows 0%nat done_row eq_refl)
      as (r' & Hr' & _ & Hout & Herr & Hcode & _ & Hrun).
    exists r'. destruct (Hrun eq_refl) as [Hst _]. by repeat split.
Defined.

(** C2, as the specification states it, fails: the update that marks
    a command as running is not conditional on the status. Applied to a completed
    row it puts the row back to [running], a state that is not
    terminal, while output, error and exit code stay. *)
Lemma set_running_counterexample :
  terminal (status done_row) = true
  /\ map status (set_running "2025-01-01T00:00:03+00:00" (Some (id done_row)) [done_row])
     = ["running"]
  /\ map terminal
       (map status
          (set_running "2025-01-01T00:00:03+00:00" (Some (id done_row)) [done_row]))
     = [false]
  /\ map output (set_running "2025-01-01T00:00:03+00:00" (Some (id done_row)) [done_row])
     = [output done_row].
Proof. repeat split. Qed.

(** How the code reaches that update on a terminal row: the result of
    a command arrives after the push and before the update of
    [execute_command]. The row ends up [running], and the polling loop
    gives up although the result had been stored. *)
Example result_before_running_update :
  let row := new_row quiet "shell" 60 (Some "echo hi") None None None in
  let pushed :=
    snd (send_command (token quiet)
           (fun i => Execute i "shell" (Some "echo hi") None None None 60)
           (with_db st0 [row])) in
  let answered :=
    fst (on_message 1 "2025-01-01T00:00:01+00:00" (bare_result (token quiet)) pushed) in
  let updated :=
    with_db answered (set_running (now_started quiet) (Some (token quiet)) (db answered)) in
  seen_terminal (token quiet) (db answered) = true
  /\ seen_terminal (token quiet) (db updated) = false
  /\ returned (poll (Z.to_nat (60 * 2 + 10)) 0 quiet (token quiet) updated 0)
     = inr "Command timed out waiting for response".
Proof. repeat split. Qed.

(** The reference state once the agent has gone. *)
Lemma not_connected_no_record_witness :
  (forall env command_type timeout command path content working_dir,
      execute_command env command_type timeout command path content working_dir
        (disconnect_agent st0) =
        {| returned := inr "Error: Mac agent is not connected. Please ensure the agent is running.";
           state := disconnect_agent st0; slept := 0 |})
  /\ (forall env call,
        call_tool env call (disconnect_agent st0) =
          ("Error: Mac agent is not connected. Please ensure the agent is running.",
           disconnect_agent st0)).
Proof. apply (not_connected_no_record (disconnect_agent st0)). reflexivity. Defined.




End ServerProofs.

(** * Further properties of the agent *)
Module AgentMore.
Import Agent AgentProofs.
Local Open Scope list_scope.

(** ** The gate, exactly *)

Lemma parents_snoc (l : Path) (x : string) :
  l <> [] -> parents (l ++ [x]) = l :: parents l.
Proof.
  intros Hl. unfold parents. rewrite length_app. simpl length.
  replace (length l + 1)%nat with (S (length l)) by lia. simpl ancestors.
  assert (Hp : parent (l ++ [x]) = l).
  { destruct l as [|a [|b l]]; [done| reflexivity |].
    change (parent ((a :: b :: l) ++ [x])) with (removelast ((a :: b :: l) ++ [x])).
    apply removelast_last. }
  rewrite Hp. rewrite bool_decide_eq_false_2; [done|].
  intros E. apply (f_equal length) in E. rewrite length_app in E. simpl in E. lia.
Qed.

Lemma descendant_parents (p root : Path) :
  root <> [] -> descendant p root -> root ∈ parents p.
Proof.
  intros Hroot (rest & Hrest & ->).
  induction rest as [|x rest IH] using rev_ind; [done|].
  rewrite app_assoc. rewrite parents_snoc.
  - destruct rest as [|y rest].
    + rewrite app_nil_r. left.
    + right. apply IH. discriminate.
  - intros E. apply app_eq_nil in E as [? _]. done.
Qed.

Section More.
Context `{host : Host}.

Lemma within_exact (p root : Path) :
  root <> [] -> within p root = true <-> p = root \/ descendant p root.
Proof.
  intros Hroot. unfold within. rewrite orb_true_iff, !bool_decide_eq_true.
  split; (intros [H|H]; [by left | right]).
  - by apply parents_prefix.
  - by apply descendant_parents.
Qed.

(** X1. The gate accepts a path text exactly when it resolves, without
    an exception, to an allow-listed root or to a path strictly below
    one, compared part by part. *)
Theorem gate_exact (path_str : string) :
  home <> [] ->
  is_path_allowed path_str = true <->
  exists p root,
    resolve path_str = inr p /\ root ∈ ALLOWED_PATHS
    /\ (p = root \/ descendant p root).
Proof.
  intros Hhome.
  assert (Hroots : forall root, root ∈ ALLOWED_PATHS -> root <> []).
  { intros root Hin. apply list_elem_of_In in Hin. simpl in Hin.
    destruct Hin as [<-|[<-|[<-|[]]]]; done. }
  unfold is_path_allowed. split.
  - destruct (resolve path_str) as [e|p]; [done|].
    intros Hex. apply existsb_exists in Hex as (root & Hin & Hw).
    apply list_elem_of_In in Hin.
    exists p, root. split; [done|]. split; [done|].
    by apply within_exact; auto.
  - intros (p & root & -> & Hin & Hw).
    apply existsb_exists. exists root. split; [by apply list_elem_of_In|].
    by apply within_exact; auto.
Qed.

(** ** What the handlers return and what they leave alone *)

(** X2. [read_file] and [list_dir] only look: whatever the path and
    whatever they answer, the machine (files, processes) is returned as
    it was. *)
Theorem reading_changes_nothing (path_str : string) (os : OS) :
  snd (read_file path_str os) = os /\ snd (list_dir path_str os) = os.
Proof.
  split.
  - unfold read_file. by repeat case_match.
  - unfold list_dir. by repeat case_match.
Qed.

Lemma read_file_ok (path_str : string) (os : OS) (p : Path) (content : string) :
  resolve path_str = inr p -> is_path_allowed (to_str p) = true ->
  is_file (files os) p = true -> read_text (files os) p = inr content ->
  read_file path_str os =
    ({| status := "completed";
        output := Val (truncated (LF_s +:+ "... (content truncated)") content);
        error := Absent; exit_code := Val 0%Z |}, os).
Proof.
  intros Hres Hgate Hfile Hread. unfold read_file.
  rewrite Hres, Hgate, Hfile, Hread. simpl.
  assert (Hex : exists_ (files os) p = true).
  { unfold exists_, is_file in *. apply bool_decide_eq_true.
    by destruct (files os !! p). }
  by rewrite Hex.
Qed.

Lemma read_file_cases (path_str : string) (os : OS) :
  (exists p content,
      resolve path_str = inr p /\ is_path_allowed (to_str p) = true
      /\ is_file (files os) p = true /\ read_text (files os) p = inr content)
  \/ (exists e, fst (read_file path_str os) = failed e).
Proof.
  unfold read_file.
  destruct (resolve path_str) as [e|p]; [right; eauto|].
  destruct (is_path_allowed (to_str p)) eqn:Hgate; [|right; eauto]. simpl.
  destruct (exists_ (files os) p); [|right; eauto]. simpl.
  destruct (is_file (files os) p) eqn:Hfile; [|right; eauto]. simpl.
  destruct (read_text (files os) p) as [e|content] eqn:Hread; [right; eauto|].
  left. eauto 10.
Qed.

(** X3. [read_file] answers [completed] exactly when the path resolves,
    passes the gate, names a regular file and [read_text] returns; the
    output is then what [read_text] returned, as it is when it is
    within the cap, cut to the cap and marked when it is longer. In
    every other case the answer is [failed] with exit code 1 and an
    error. *)
Theorem read_file_completes_iff (path_str : string) (os : OS) :
  (status (fst (read_file path_str os)) = "completed" <->
   exists p content,
     resolve path_str = inr p /\ is_path_allowed (to_str p) = true
     /\ is_file (files os) p = true /\ read_text (files os) p = inr content)
  /\ (forall p content,
        resolve path_str = inr p -> read_text (files os) p = inr content ->
        status (fst (read_file path_str os)) = "completed" ->
        exists out,
          output (fst (read_file path_str os)) = Val out
          /\ cut_at_cap (LF_s +:+ "... (content truncated)") content out
          /\ ((len content <= MAX_OUTPUT_SIZE)%Z -> out = content))
  /\ (status (fst (read_file path_str os)) <> "completed" ->
      status (fst (read_file path_str os)) = "failed"
      /\ exit_code (fst (read_file path_str os)) = Val 1%Z
      /\ exists e, error (fst (read_file path_str os)) = Val e).
Proof.
  destruct (read_file_cases path_str os)
    as [(p & content & Hres & Hgate & Hfile & Hread)|[e He]].
  - rewrite (read_file_ok _ _ _ _ Hres Hgate Hfile Hread). simpl.
    split; [|split; [|done]].
    + split; [intros _; by exists p, content | done].
    + intros p' content' Hres' Hread' _. rewrite Hres in Hres'.
      injection Hres' as <-. rewrite Hread in Hread'. injection Hread' as <-.
      eexists. split; [reflexivity|]. split; [apply truncated_cut|].
      apply (truncated_cut _ content).
  - rewrite He. simpl. split; [|split; [done|eauto]].
    split; [done|]. intros (p & content & Hres & Hgate & Hfile & Hread).
    by rewrite (read_file_ok _ _ _ _ Hres Hgate Hfile Hread) in He.
Qed.

Lemma failed_shape (msg : string) : well_shaped (failed msg).
Proof.
  unfold well_shaped, result_status. simpl.
  split; [auto|]. split; [eauto|]. split; done.
Qed.

Lemma completed_shape (o : string) :
  well_shaped {| status := "completed"; output := Val o; error := Absent;
                 exit_code := Val 0%Z |}.
Proof.
  unfold well_shaped, result_status. simpl.
  split; [auto|]. split; [eauto|]. split; [eauto | done].
Qed.

Lemma run_shell_shape (command : string) (cwd : option Path) (timeout : Z) (os : OS) :
  well_shaped (fst (run_shell command cwd timeout os)).
Proof.
  unfold run_shell.
  destruct (shell command cwd (files os)) as [e|process]; [apply failed_shape|].
  simpl. unfold well_shaped, result_status.
  destruct (completes_within timeout process); simpl.
  - destruct (Z.eqb_spec (returncode process) 0) as [->|Hnz].
    + split; [auto|]. split; [eauto|]. split; [eauto | done].
    + split; [auto|]. split; [eauto|]. split; done.
  - split; [auto|]. split; [eauto|]. split; done.
Qed.

Lemma execute_shell_shape command working_dir timeout os r os' :
  execute_shell command working_dir timeout os = inr (r, os') -> well_shaped r.
Proof.
  intros Hrun. unfold execute_shell in Hrun.
  destruct (choose_cwd working_dir) as [e|wd|cwd]; [done| |].
  - injection Hrun as <- _.
    apply (failed_shape ("Working directory not allowed: " +:+ wd)).
  - injection Hrun as Hrun.
    pose proof (run_shell_shape command cwd timeout os) as Hshape.
    by rewrite Hrun in Hshape.
Qed.

Lemma read_file_shape path_str os : well_shaped (fst (read_file path_str os)).
Proof.
  unfold read_file.
  repeat case_match; first [apply failed_shape | apply completed_shape].
Qed.

Lemma write_file_shape path_str content os :
  well_shaped (fst (write_file path_str content os)).
Proof.
  unfold write_file.
  repeat case_match; first [apply failed_shape | apply completed_shape].
Qed.

Lemma list_dir_shape path_str os : well_shaped (fst (list_dir path_str os)).
Proof.
  unfold list_dir.
  repeat case_match; first [apply failed_shape | apply completed_shape].
Qed.

(** X4. Every result of the four handlers has the same shape: the
    status is [completed], [failed] or [timeout]; an exit code is
    always there; [completed] comes with exit code 0 and an output, and
    [timeout] with exit code -1. *)
Theorem uniform_result_shape :
  (forall command working_dir timeout os r os',
      execute_shell command working_dir timeout os = inr (r, os') -> well_shaped r)
  /\ (forall path_str os, well_shaped (fst (read_file path_str os)))
  /\ (forall path_str content os, well_shaped (fst (write_file path_str content os)))
  /\ (forall path_str os, well_shaped (fst (list_dir path_str os))).
Proof.
  split; [|split; [|split]].
  - apply execute_shell_shape.
  - apply read_file_shape.
  - apply write_file_shape.
  - apply list_dir_shape.
Qed.

Lemma run_shell_exit_code (command : string) (cwd : option Path) (timeout : Z)
    (os : OS) :
  exists n, exit_code (fst (run_shell command cwd timeout os)) = Val n
            /\ (-128 < n < 256)%Z.
Proof.
  unfold run_shell.
  destruct (shell command cwd (files os)) as [e|process] eqn:Hshell; simpl.
  { exists 1%Z. split; [done|lia]. }
  destruct (completes_within timeout process); simpl.
  - exists (returncode process). split; [done|].
    by eapply returncode_range.
  - exists (-1)%Z. split; [done|lia].
Qed.

(** ** [write_file] and the rest of the tree *)








(** ** [list_dir] *)



Lemma path_leb_total (p q : Path) : path_leb p q = true \/ path_leb q p = true.
Proof.
  revert q. induction p as [|a p IH]; intros q; [by left|].
  destruct q as [|b q]; [by right|]. simpl.
  rewrite (String.compare_antisym b a).
  destruct (String.compare a b); simpl; auto.
Qed.

Global Instance path_le_total : Total path_le.
Proof. intros p q. apply path_leb_total. Qed.


(** ** [handle_command] and the loop *)

Lemma handle_command_reply (data : In.t) (os os' : OS) (reply : Reply) :
  handle_command data os = Some (inr (reply, os')) ->
  reply_id reply = get (In.id data) /\ well_shaped (result reply).
Proof.
  unfold handle_command.
  destruct (bool_decide (get (In.command_type data) = Some "shell")).
  { destruct (get_default (In.command data) EmptyString) as [command|]; [|done].
    destruct (get_default (In.timeout data) 60%Z) as [timeout|]; [|done].
    destruct (execute_shell command (get (In.working_dir data)) timeout os)
      as [e|[r os1]] eqn:Hrun; [done|].
    intros [= <- <-]. split; [done|]. by eapply execute_shell_shape. }
  destruct (bool_decide (get (In.command_type data) = Some "read_file")).
  { destruct (get_default (In.path data) EmptyString) as [path_str|]; [|done].
    intros [= <- <-]. split; [done|]. apply read_file_shape. }
  destruct (bool_decide (get (In.command_type data) = Some "write_file")).
  { destruct (get_default (In.path data) EmptyString) as [path_str|]; [|done].
    destruct (get_default (In.content data) EmptyString) as [content|]; [|done].
    intros [= <- <-]. split; [done|]. apply write_file_shape. }
  destruct (bool_decide (get (In.command_type data) = Some "list_dir")).
  { destruct (get_default (In.path data) EmptyString) as [path_str|]; [|done].
    intros [= <- <-]. split; [done|]. apply list_dir_shape. }
  intros [= <- <-]. split; [done|]. apply failed_shape.
Qed.

(** X9. [handle_command] answers with the id of the frame and a
    well-shaped result. A command type that is none of the four, or is
    missing, is answered [failed], exit code 1, with an error naming
    it, and the machine is not touched. *)
Theorem handle_command_answers (data : In.t) (os : OS) :
  (forall reply os',
      handle_command data os = Some (inr (reply, os')) ->
      reply_id reply = get (In.id data) /\ well_shaped (result reply))
  /\ (get (In.command_type data) <> Some "shell" ->
      get (In.command_type data) <> Some "read_file" ->
      get (In.command_type data) <> Some "write_file" ->
      get (In.command_type data) <> Some "list_dir" ->
      handle_command data os =
        Some (inr ({| reply_id := get (In.id data);
                      result :=
                        {| status := "failed"; output := Absent;
                           error := Val ("Unknown command type: "
                                         +:+ str_opt (get (In.command_type data)));
                           exit_code := Val 1%Z |} |}, os))).
Proof.
  split.
  - intros reply os'. apply handle_command_reply.
  - intros H1 H2 H3 H4. unfold handle_command.
    by rewrite !bool_decide_eq_false_2 by done.
Qed.

Ltac small_code :=
  first [ exists 1%Z; split; [reflexivity|lia] | exists 0%Z; split; [reflexivity|lia] ].

Lemma handle_command_exit_code (data : In.t) (os os' : OS) (reply : Reply) :
  handle_command data os = Some (inr (reply, os')) ->
  exists n, exit_code (result reply) = Val n /\ (-128 < n < 256)%Z.
Proof.
  unfold handle_command.
  destruct (bool_decide (get (In.command_type data) = Some "shell")).
  { destruct (get_default (In.command data) EmptyString) as [command|]; [|done].
    destruct (get_default (In.timeout data) 60%Z) as [timeout|]; [|done].
    unfold execute_shell.
    destruct (choose_cwd (get (In.working_dir data))) as [e|wd|cwd]; [done| |].
    - intros [= <- <-]. simpl. exists 1%Z. split; [done|lia].
    - intros [= <- <-]. simpl. apply run_shell_exit_code. }
  destruct (bool_decide (get (In.command_type data) = Some "read_file")).
  { destruct (get_default (In.path data) EmptyString) as [path_str|]; [|done].
    intros [= <- <-]. simpl. unfold read_file. repeat case_match; simpl; small_code. }
  destruct (bool_decide (get (In.command_type data) = Some "write_file")).
  { destruct (get_default (In.path data) EmptyString) as [path_str|]; [|done].
    destruct (get_default (In.content data) EmptyString) as [content|]; [|done].
    intros [= <- <-]. simpl. unfold write_file. repeat case_match; simpl; small_code. }
  destruct (bool_decide (get (In.command_type data) = Some "list_dir")).
  { destruct (get_default (In.path data) EmptyString) as [path_str|]; [|done].
    intros [= <- <-]. simpl. unfold list_dir. repeat case_match; simpl; small_code. }
  intros [= <- <-]. simpl. small_code.
Qed.

(** X10. Over the frames of one connection the agent works one command
    at a time and in order: the replies sent carry the ids of the
    [execute] frames in the order these arrived, one reply each, all
    well shaped. When the loop ends because the socket closed between
    two frames, every [execute] frame has been answered; when the
    socket closed while a command was handled, that command has been
    carried out but its answer, and those of the frames behind it, are
    never sent. *)
Theorem serve_in_order (messages : list (In.t * bool)) :
  forall (os os' : OS) (replies : list Reply) (ended : Ended),
    serve messages os = (replies, os', ended) ->
    let asked := executes (map fst messages) in
    map reply_id replies =
      take (length replies) (map (fun data => get (In.id data)) asked)
    /\ Forall (fun reply => well_shaped (result reply)) replies
    /\ (ended = SocketClosed -> length replies = length asked)
    /\ (ended = SendFailed -> (length replies < length asked)%nat)
    /\ (Forall (fun m => snd m = true) messages -> ended <> SendFailed).
Proof.
  induction messages as [|[data still_open] rest IH];
    intros os os' replies ended; simpl.
  - intros [= <- <- <-]. by repeat split.
  - unfold executes. rewrite filter_cons. fold (executes (map fst rest)).
    case_bool_decide as Hexec.
    + rewrite decide_True by done.
      destruct (handle_command data os) as [[e|[reply os1]]|] eqn:Hh.
      * intros [= <- <- <-]. by repeat split.
      * destruct still_open.
        -- destruct (serve rest os1) as [[replies1 os2] ended1] eqn:Hrest.
           intros [= <- <- <-].
           destruct (IH _ _ _ _ Hrest) as (Hids & Hshape & Hall & Hlost & Hopen).
           destruct (handle_command_reply _ _ _ _ Hh) as [Hid Hwell].
           simpl. split; [by rewrite Hid, Hids|]. split; [by constructor|].
           split; [intros Hend; by rewrite Hall|].
           split; [intros Hend; specialize (Hlost Hend); lia|].
           intros Hfa. apply Forall_cons in Hfa as [_ Hfa]. by apply Hopen.
        -- intros [= <- <- <-]. simpl. split; [done|]. split; [done|].
           split; [done|]. split; [intros _; lia|].
           intros Hfa. by apply Forall_cons in Hfa as [? _].
      * intros [= <- <- <-]. by repeat split.
    + rewrite decide_False by done. intros Hserve.
      destruct (IH _ _ _ _ Hserve) as (Hids & Hshape & Hall & Hlost & Hopen).
      split; [done|]. split; [done|]. split; [done|]. split; [done|].
      intros Hfa. apply Forall_cons in Hfa as [_ Hfa]. by apply Hopen.
Qed.

End More.
(** ** The properties on the reference host *)

#[local] Existing Instance posix_host.

Lemma gate_exact_witness :
  is_path_allowed "/tmp/a/../b" = true <->
  exists p root,
    resolve "/tmp/a/../b" = inr p /\ root ∈ ALLOWED_PATHS
    /\ (p = root \/ descendant p root).
Proof. apply (gate_exact "/tmp/a/../b"). discriminate. Defined.

Lemma read_file_completes_iff_witness :
  status (fst (read_file "~/notes.txt" os0)) = "completed"
  /\ exists out,
       output (fst (read_file "~/notes.txt" os0)) = Val out
       /\ cut_at_cap (LF_s +:+ "... (content truncated)") "remember the milk" out
       /\ ((len "remember the milk" <= MAX_OUTPUT_SIZE)%Z -> out = "remember the milk").
Proof.
  destruct (read_file_completes_iff "~/notes.txt" os0) as ([_ Hdone] & Hout & _).
  assert (Hok : status (fst (read_file "~/notes.txt" os0)) = "completed").
  { apply Hdone. exists ["/"; "home"; "user"; "notes.txt"], "remember the milk".
    repeat split; vm_compute; reflexivity. }
  split; [exact Hok|].
  apply (Hout ["/"; "home"; "user"; "notes.txt"]); [reflexivity | reflexivity | exact Hok].
Defined.

Lemma uniform_result_shape_witness :
  well_shaped (fst (run_shell "sleep 10" None 5%Z os0)).
Proof.
  apply (proj1 uniform_result_shape "sleep 10" None 5%Z os0 _
           (snd (run_shell "sleep 10" None 5%Z os0))).
  vm_compute. reflexivity.
Defined.


(** On a full disk the write of a file that exists fails after the
    file has been emptied. *)
Example write_on_full_disk :
  write_file (host := full_disk_host) "~/notes.txt" "remember the eggs" os0 =
    ({| status := "failed"; output := Absent;
        error := Val "[Errno 28] No space left on device"; exit_code := Val 1%Z |},
     with_files os0 (<[ ["/"; "home"; "user"; "notes.txt"] := File EmptyString ]> tree0)).
Proof. reflexivity. Qed.


Lemma handle_command_answers_witness :
  let data := Wire.to_agent (Server.Execute "c1" "reboot" None None None None 60%Z) in
  handle_command data os0 =
    Some (inr ({| reply_id := Some "c1";
                  result := {| status := "failed"; output := Absent;
                               error := Val "Unknown command type: reboot";
                               exit_code := Val 1%Z |} |}, os0)).
Proof.
  apply (proj2 (handle_command_answers
                  (Wire.to_agent (Server.Execute "c1" "reboot" None None None None 60%Z))
                  os0)); discriminate.
Defined.

Lemma serve_in_order_witness :
  let messages :=
    [ (Wire.to_agent (Server.Execute "c1" "shell" (Some "echo hi") None None None 5%Z),
       true);
      (Wire.to_agent Server.Pong, true);
      (Wire.to_agent (Server.Execute "c2" "read_file" None (Some "~/notes.txt") None
                        None 60%Z), false);
      (Wire.to_agent (Server.Execute "c3" "list_dir" None (Some "~") None
                        None 60%Z), true) ] in
  map reply_id (fst (fst (serve messages os0))) = [Some "c1"]
  /\ snd (serve messages os0) = SendFailed
  /\ (length (fst (fst (serve messages os0))) < length (executes (map fst messages)))%nat.
Proof.
  intros messages.
  destruct (serve_in_order messages os0 (snd (fst (serve messages os0)))
              (fst (fst (serve messages os0))) (snd (serve messages os0)))
    as (Hids & _ & _ & Hlost & _).
  - vm_compute. reflexivity.
  - split; [rewrite Hids; vm_compute; reflexivity|].
    split; [vm_compute; reflexivity|].
    apply Hlost. vm_compute. reflexivity.
Defined.

End AgentMore.

(** * Further properties of the relay server *)
Module ServerMore.
Import Server ServerProofs.
Local Open Scope list_scope.

(** ** Pushing a command *)

(** X11. [send_command] never touches the table or the manager's
    reference. It returns [True] exactly when the manager refers to a
    socket that is open; the frame is then appended to what has been
    written to that socket and no other socket changes. When it returns
    [False] nothing at all has changed. *)
Theorem send_command_effect (command_id : string) (command_data : string -> Sent)
    (st : State) :
  let ok := fst (send_command command_id command_data st) in
  let st' := snd (send_command command_id command_data st) in
  db st' = db st
  /\ agent_connection st' = agent_connection st
  /\ (ok = true <->
      exists ws sock, agent_connection st = Some ws
                      /\ sockets st !! ws = Some sock /\ open sock = true)
  /\ (ok = false -> st' = st)
  /\ (forall ws, agent_connection st = Some ws -> ok = true ->
        written ws st' = written ws st ++ [command_data command_id]
        /\ forall ws', ws' <> ws -> sockets st' !! ws' = sockets st !! ws').
Proof.
  unfold send_command, send_json, written.
  destruct (agent_connection st) as [ws|] eqn:Hconn; simpl.
  2:{ split; [done|]. split; [done|]. split; [|split; [done|]].
      - split; [done|]. by intros (?&?&?&?).
      - by intros ws. }
  destruct (sockets st !! ws) as [sock|] eqn:Hsock; simpl.
  2:{ split; [done|]. split; [done|]. split; [|split; [done|]].
      - split; [done|]. intros (ws' & sock' & ? & Hs & Ho). simplify_eq.
      - by intros ws'. }
  destruct (open sock) eqn:Hopen; simpl.
  - split; [done|]. split; [done|]. split; [|split; [done|]].
    + split; [|done]. intros _. by exists ws, sock.
    + intros ws' [= <-] _. split.
      * by rewrite lookup_insert_eq, Hsock.
      * intros ws' Hne. by rewrite lookup_insert_ne.
  - split; [done|]. split; [done|]. split; [|split; [done|]].
    + split; [done|]. intros (ws' & sock' & ? & Hs & Ho). simplify_eq. congruence.
    + by intros ws'.
Qed.

(** ** The receive loop *)




Lemma receive_loop_ends (ws : nat) (frames : list (string * Msg.t)) :
  forall st, agent_connection (receive_loop ws frames st) = None.
Proof.
  induction frames as [|[now data] rest IH]; intros st; [done|]. simpl.
  destruct (on_message ws now data st) as [st' go_on] eqn:Hstep.
  destruct go_on; [apply IH|].
  unfold on_message in Hstep. repeat case_match; by simplify_eq.
Qed.

(** X14. When the handler of an admitted agent returns, the manager
    holds no reference any more, whichever socket it referred to in the
    meantime: the end of the receive loop on one socket also drops the
    reference to a socket that connected later. *)
Theorem handler_end_disconnects (ws : nat) (frames : list (string * Msg.t)) (st : State) :
  agent_connection (receive_loop ws frames st) = None
  /\ is_agent_connected (receive_loop ws frames st) = false
  /\ (forall cfg lib h clock,
        admission cfg lib h = Accepted ->
        agent_connection (agent_websocket cfg lib h clock ws frames st) = None).
Proof.
  split; [apply receive_loop_ends|]. split.
  - unfold is_agent_connected. rewrite receive_loop_ends.
    by rewrite bool_decide_eq_false_2 by (intros E; by apply E).
  - intros cfg lib h clock Hin. unfold agent_websocket. rewrite Hin.
    apply receive_loop_ends.
Qed.

(** ** The backlog of a connecting agent *)

Lemma send_command_connection (command_id : string) (command_data : string -> Sent)
    (st : State) :
  agent_connection (snd (send_command command_id command_data st))
  = agent_connection st.
Proof.
  unfold send_command, send_json. repeat case_match; by simplify_eq.
Qed.

Lemma unique_ids_eq (d : list Row) (r1 r2 : Row) :
  unique_ids d -> r1 ∈ d -> r2 ∈ d -> id r1 = id r2 -> r1 = r2.
Proof.
  unfold unique_ids. induction d as [|r d IH]; [by intros _ ?%elem_of_nil|].
  simpl. intros Hnd H1 H2 Hid. apply NoDup_cons in Hnd as [Hnotin Hnd].
  apply elem_of_cons in H1 as [->|H1]; apply elem_of_cons in H2 as [->|H2].
  - done.
  - exfalso. apply Hnotin. rewrite Hid. by apply list_elem_of_fmap_2.
  - exfalso. apply Hnotin. rewrite <- Hid. by apply list_elem_of_fmap_2.
  - by apply IH.
Qed.

Lemma started_twice (t1 t2 : string) (r : Row) : started t2 (started t1 r) = started t2 r.
Proof. reflexivity. Qed.

Lemma set_running_row (now : string) (key : string) (d : list Row) (i : nat) (r : Row) :
  d !! i = Some r ->
  set_running now (Some key) d !! i
  = Some (if bool_decide (id r = key) then started now r else r).
Proof.
  intros Hi. unfold set_running. rewrite list_lookup_fmap, Hi. reflexivity.
Qed.

Lemma redeliver_rows (clock : nat -> string) (pending : list Row) :
  forall (k : nat) (st : State) (i : nat) (r : Row),
    db st !! i = Some r ->
    (id r ∉ map id pending ->
     db (redeliver clock k pending st) !! i = Some r)
    /\ (id r ∈ map id pending ->
        exists t, db (redeliver clock k pending st) !! i = Some (started t r)).
Proof.
  induction pending as [|row rest IH]; intros k st i r Hi; simpl.
  { split; [done|]. by intros ?%elem_of_nil. }
  destruct (send_command (id row) _ st) as [ok st1] eqn:Hsend.
  assert (Hdb : db st1 = db st).
  { rewrite <- (send_command_db (id row)
      (fun i => Execute i (type row) (command row) (path row) (content row)
                        (working_dir row) (timeout row)) st). by rewrite Hsend. }
  set (st2 := with_db st1 (set_running (clock k) (Some (id row)) (db st1))).
  assert (Hi2 : db st2 !! i
                = Some (if bool_decide (id r = id row) then started (clock k) r else r)).
  { subst st2. simpl. rewrite Hdb. by apply set_running_row. }
  destruct (IH (S k) st2 i _ Hi2) as [Hout Hin].
  case_bool_decide as Hid.
  - split.
    + intros Hnot. exfalso. apply Hnot. rewrite Hid. left.
    + intros _. destruct (decide (id r ∈ map id rest)) as [Hr|Hr].
      * destruct (Hin Hr) as [t Ht]. exists t. by rewrite Ht, started_twice.
      * exists (clock k). by apply Hout.
  - split.
    + intros Hnot. apply Hout. intros Hr. apply Hnot. by right.
    + intros Hr. apply elem_of_cons in Hr as [Hr|Hr]; [done|]. by apply Hin.
Qed.

Lemma redeliver_written (clock : nat -> string) (ws : nat) (pending : list Row) :
  forall (k : nat) (st : State) (sock : WebSocket),
    agent_connection st = Some ws ->
    sockets st !! ws = Some sock ->
    open sock = true ->
    written ws (redeliver clock k pending st)
    = outbox sock ++ map execute_frame pending.
Proof.
  induction pending as [|row rest IH]; intros k st sock Hconn Hsock Hopen; simpl.
  { unfold written. by rewrite Hsock, app_nil_r. }
  unfold send_command, send_json. rewrite Hconn, Hsock, Hopen.
  rewrite (IH _ _ {| open := true; outbox := outbox sock ++ [execute_frame row] |}).
  - simpl. by rewrite <- app_assoc.
  - done.
  - simpl. apply lookup_insert_eq.
  - done.
Qed.

Lemma redeliver_closed (clock : nat -> string) (ws : nat) (pending : list Row) :
  forall (k : nat) (st : State) (sock : WebSocket),
    agent_connection st = Some ws ->
    sockets st !! ws = Some sock ->
    open sock = false ->
    sockets (redeliver clock k pending st) = sockets st
    /\ agent_connection (redeliver clock k pending st) = Some ws.
Proof.
  induction pending as [|row rest IH]; intros k st sock Hconn Hsock Hopen; simpl.
  { done. }
  unfold send_command, send_json. rewrite Hconn, Hsock, Hopen.
  by apply (IH (S k) (with_db st (set_running (clock k) (Some (id row)) (db st))) sock).
Qed.

Lemma redeliver_connection (clock : nat -> string) (pending : list Row) :
  forall (k : nat) (st : State),
    agent_connection (redeliver clock k pending st) = agent_connection st.
Proof.
  induction pending as [|row rest IH]; intros k st; simpl; [done|].
  destruct (send_command (id row) _ st) as [ok st1] eqn:Hsend.
  rewrite IH. simpl.
  rewrite <- (send_command_connection (id row)
    (fun i => Execute i (type row) (command row) (path row) (content row)
                      (working_dir row) (timeout row)) st).
  by rewrite Hsend.
Qed.

Global Instance created_le_total : Total created_le.
Proof. intros r1 r2. apply String.leb_total. Qed.

Lemma select_pending_spec (d : list Row) (r : Row) :
  r ∈ select_pending d <-> r ∈ d /\ status r = PENDING.
Proof.
  unfold select_pending. rewrite merge_sort_Permutation, list_elem_of_filter.
  tauto.
Qed.

(** X15. What the connection of an agent does to the backlog. On a
    table with unique ids, the manager refers to the new socket; every
    row that was pending is set to running, every other row is left as
    it was; the pending rows are those pushed, oldest first, and on an
    open socket exactly their frames are written, in that order. The
    rows are set to running whether or not the push went through: on a
    socket that is closed nothing is written and they are running all
    the same. *)
Theorem on_connect_backlog (clock : nat -> string) (ws : nat) (st : State) :
  unique_ids (db st) ->
  let st' := on_connect clock ws st in
  agent_connection st' = Some ws
  /\ (forall i r, db st !! i = Some r ->
        (status r <> PENDING -> db st' !! i = Some r)
        /\ (status r = PENDING -> exists t, db st' !! i = Some (started t r)))
  /\ Sorted created_le (select_pending (db st))
  /\ (forall r, r ∈ select_pending (db st) <-> r ∈ db st /\ status r = PENDING)
  /\ (forall sock, sockets st !! ws = Some sock -> open sock = true ->
        written ws st' = outbox sock ++ map execute_frame (select_pending (db st)))
  /\ (forall sock, sockets st !! ws = Some sock -> open sock = false ->
        sockets st' = sockets st).
Proof.
  intros Huniq st'. subst st'. unfold on_connect.
  split; [by rewrite redeliver_connection|].
  split; [|split; [|split; [|split]]].
  - intros i r Hi.
    destruct (redeliver_rows clock (select_pending (db (connect_agent ws st))) 0
                (connect_agent ws st) i r Hi) as [Hout Hin].
    assert (Hr : r ∈ db st) by (by eapply list_elem_of_lookup_2).
    split.
    + intros Hnp. apply Hout. intros Hid.
      apply list_elem_of_fmap in Hid as (r2 & Hid & Hr2).
      apply select_pending_spec in Hr2 as [Hr2 Hp].
      apply Hnp. by rewrite (unique_ids_eq _ _ _ Huniq Hr Hr2 Hid).
    + intros Hp. apply Hin. apply list_elem_of_fmap_2.
      by apply select_pending_spec.
  - apply Sorted_merge_sort. apply _.
  - apply select_pending_spec.
  - intros sock Hsock Hopen. by apply redeliver_written.
  - intros sock Hsock Hopen.
    by destruct (redeliver_closed clock ws (select_pending (db (connect_agent ws st)))
                   0 (connect_agent ws st) sock eq_refl Hsock Hopen).
Qed.

(** ** The wait, when a result comes *)

Lemma poll_first_terminal (n : nat) :
  forall (k : nat) (env : Env) (command_id : string) (st : State) (s : Z)
         (j : nat) (row : Row),
    (j < n)%nat ->
    (forall i, (i < j)%nat ->
               seen_terminal command_id (db_after env k (S i) (db st)) = false) ->
    select command_id (db_after env k (S j) (db st)) = Some row ->
    terminal (status row) = true ->
    poll n k env command_id st s =
      {| returned := inr (result_text row);
         state := with_db st (db_after env k (S j) (db st));
         slept := (s + 500 * (Z.of_nat j + 1))%Z |}.
Proof.
  induction n as [|n IH]; intros k env command_id st s j row Hj Hbefore Hsel Hterm;
    [lia|].
  simpl poll. change (db (with_db st (during_sleep env k (db st))))
    with (during_sleep env k (db st)).
  destruct j as [|j].
  - simpl in Hsel. rewrite Hsel, Hterm. f_equal; lia.
  - pose proof (Hbefore 0%nat ltac:(lia)) as H0. simpl in H0.
    unfold seen_terminal in H0.
    assert (Hrest : poll n (S k) env command_id
                      (with_db st (during_sleep env k (db st))) (s + 500) =
                    {| returned := inr (result_text row);
                       state := with_db st (db_after env k (S (S j)) (db st));
                       slept := (s + 500 * (Z.of_nat (S j) + 1))%Z |}).
    { rewrite (IH (S k) env command_id _ (s + 500)%Z j row).
      - f_equal. lia.
      - lia.
      - intros i Hi. apply (Hbefore (S i)). lia.
      - exact Hsel.
      - exact Hterm. }
    destruct (select command_id (during_sleep env k (db st))) as [row0|];
      [|exact Hrest].
    by rewrite H0.
Qed.

(** X16. A result that comes in time is what the caller gets. When a
    command has been pushed and the first round of the polling loop to
    find its row in a terminal state is round [j + 1], within the
    budget, [execute_command] returns the text made of that row after
    [j + 1] sleeps of half a second. *)
Theorem result_is_delivered env command_type timeout command path content
    working_dir st st3 (j : nat) (row : Row) :
  submit env command_type timeout command path content working_dir st = Waiting st3 ->
  (j < Z.to_nat (timeout * 2 + 10))%nat ->
  (forall i, (i < j)%nat ->
             seen_terminal (token env) (db_after env 0 (S i) (db st3)) = false) ->
  select (token env) (db_after env 0 (S j) (db st3)) = Some row ->
  terminal (status row) = true ->
  let o := execute_command env command_type timeout command path content working_dir st in
  returned o = inr (result_text row)
  /\ slept o = (500 * (Z.of_nat j + 1))%Z
  /\ db (state o) = db_after env 0 (S j) (db st3).
Proof.
  intros Hsub Hj Hbefore Hsel Hterm o. subst o. unfold execute_command.
  rewrite Hsub. rewrite (poll_first_terminal _ _ _ _ _ _ j row Hj Hbefore Hsel Hterm).
  simpl. repeat split; lia.
Qed.

(** ** The text returned *)

Lemma rstrip_twice (s : string) : rstrip (rstrip s) = rstrip s.
Proof.
  induction s as [|c s IH]; [done|]. simpl.
  destruct (rstrip s) as [|c' s'] eqn:Hs.
  - destruct (is_space c) eqn:Hc; [done|]. simpl. by rewrite Hc.
  - simpl. simpl in IH. by rewrite IH.
Qed.

Lemma lstrip_head (s : string) :
  lstrip s = EmptyString \/ exists c rest, lstrip s = String c rest /\ is_space c = false.
Proof.
  induction s as [|c s IH]; [by left|]. simpl.
  destruct (is_space c) eqn:Hc; [exact IH|]. right. eauto.
Qed.

Lemma strip_twice (s : string) : strip (strip s) = strip s.
Proof.
  unfold strip.
  assert (Hl : lstrip (rstrip (lstrip s)) = rstrip (lstrip s)).
  { destruct (lstrip_head s) as [->|(c & rest & -> & Hc)]; [done|].
    simpl. destruct (rstrip rest); rewrite ?Hc; simpl; by rewrite Hc. }
  by rewrite Hl, rstrip_twice.
Qed.

Lemma result_text_good (row : Row) :
  result_text row <> EmptyString /\ trimmed (result_text row).
Proof.
  unfold result_text, trimmed.
  set (text := strip _).
  destruct text as [|c rest] eqn:Htext; simpl; [done|].
  split; [done|]. rewrite <- Htext. subst text. apply strip_twice.
Qed.

Lemma poll_returned (n : nat) : forall k env command_id st s,
  returned (poll n k env command_id st s) = inr "Command timed out waiting for response"
  \/ exists row, returned (poll n k env command_id st s) = inr (result_text row).
Proof.
  induction n as [|n IH]; intros k env command_id st s; simpl; [by left|].
  destruct (select command_id _) as [row|]; [|apply IH].
  destruct (terminal (status row)); [|apply IH]. right. by exists row.
Qed.

(** X17. What [execute_command] returns is never empty and never has
    white space at its ends: a result without output, error and exit
    code reads [(no output)], and the text of a row is stripped. *)
Theorem returned_text_is_trimmed env command_type timeout command path content
    working_dir st (text : string) :
  returned (execute_command env command_type timeout command path content
              working_dir st) = inr text ->
  text <> EmptyString /\ trimmed text.
Proof.
  unfold execute_command.
  destruct (submit env command_type timeout command path content working_dir st)
    as [o|st3] eqn:Hsub.
  - unfold submit in Hsub. repeat case_match; simplify_eq; simpl;
      intros [= <-]; by split.
  - destruct (poll_returned (Z.to_nat (timeout * 2 + 10)) 0 env (token env) st3 0)
      as [->|[row ->]]; intros [= <-].
    + by split.
    + apply result_text_good.
Qed.

(** ** Ids *)

Lemma set_running_ids (now : string) (key : option string) (d : list Row) :
  map id (set_running now key d) = map id d.
Proof.
  unfold set_running. rewrite map_map. apply map_ext.
  intros r. by destruct (id_is key r).
Qed.

Lemma set_result_ids s o e c (now : string) (key : option string) (d : list Row) :
  map id (set_result s o e c now key d) = map id d.
Proof.
  unfold set_result. rewrite map_map. apply map_ext.
  intros r. by destruct (id_is key r).
Qed.

Lemma redeliver_ids (clock : nat -> string) (pending : list Row) :
  forall (k : nat) (st : State),
    map id (db (redeliver clock k pending st)) = map id (db st).
Proof.
  induction pending as [|row rest IH]; intros k st; [done|].
  simpl. destruct (send_command _ _ st) as [ok st1] eqn:Hsend.
  rewrite IH. simpl. rewrite set_running_ids.
  by rewrite <- (send_command_db (id row)
    (fun i => Execute i (type row) (command row) (path row) (content row)
                      (working_dir row) (timeout row)) st), Hsend.
Qed.

Lemma insert_unique (row : Row) (d d' : list Row) :
  unique_ids d -> insert row d = inr d' -> unique_ids d'.
Proof.
  unfold insert, unique_ids. intros Hnd.
  destruct (negb (int64 (timeout row))); [done|].
  destruct (existsb _ d) eqn:Hex; [done|]. intros [= <-].
  rewrite map_app. simpl. apply NoDup_app. split; [done|]. split.
  - intros x Hx ->%list_elem_of_singleton.
    apply list_elem_of_fmap in Hx as (r & Hid & Hr).
    apply not_true_iff_false in Hex. apply Hex.
    apply existsb_exists. exists r. split; [by apply list_elem_of_In|].
    by apply bool_decide_eq_true.
  - apply NoDup_singleton.
Qed.

Lemma poll_unique (n : nat) : forall k env command_id st s,
  (forall k d, unique_ids d -> unique_ids (during_sleep env k d)) ->
  unique_ids (db st) ->
  unique_ids (db (state (poll n k env command_id st s))).
Proof.
  induction n as [|n IH]; intros k env command_id st s Henv Hst; simpl; [done|].
  assert (Hnext : unique_ids (db (with_db st (during_sleep env k (db st)))))
    by (simpl; by apply Henv).
  destruct (select command_id _) as [row|]; [|by apply IH].
  destruct (terminal (status row)); [done|by apply IH].
Qed.

(** X18. No operation of the relay ever makes two rows with the same
    id. From a table with unique ids, a frame handled by the receive
    loop, the connection of an agent and a whole [execute_command]
    (granted the other tasks keep ids unique meanwhile) all leave a
    table with unique ids. *)
Theorem ids_stay_unique (st : State) :
  unique_ids (db st) ->
  (forall ws now data, unique_ids (db (fst (on_message ws now data st))))
  /\ (forall clock ws, unique_ids (db (on_connect clock ws st)))
  /\ (forall env command_type timeout command path content working_dir,
        (forall k d, unique_ids d -> unique_ids (during_sleep env k d)) ->
        unique_ids (db (state (execute_command env command_type timeout command path
                                 content working_dir st)))).
Proof.
  intros Hst. split; [|split].
  - intros ws now data. unfold on_message, send_json.
    repeat case_match; simplify_eq; simpl; try done.
    unfold unique_ids. by rewrite set_result_ids.
  - intros clock ws. unfold on_connect, unique_ids. by rewrite redeliver_ids.
  - intros env command_type timeout command path content working_dir Henv.
    unfold execute_command.
    destruct (submit env command_type timeout command path content working_dir st)
      as [o|st3] eqn:Hsub.
    + unfold submit in Hsub.
      destruct (negb (is_agent_connected st)); [by simplify_eq|].
      destruct (insert _ (db st)) as [e|db1] eqn:Hins; [by simplify_eq|].
      apply (insert_unique _ _ _ Hst) in Hins.
      destruct (send_command _ _ (with_db st db1)) as [ok st2] eqn:Hsend.
      pose proof (send_command_db (token env)
        (fun i => Execute i command_type command path content working_dir timeout)
        (with_db st db1)) as Hdb2. rewrite Hsend in Hdb2. simpl in Hdb2.
      destruct ok; simpl in Hsub; [done|]. simplify_eq. done.
    + apply poll_unique; [done|].
      unfold submit in Hsub.
      destruct (negb (is_agent_connected st)); [done|].
      destruct (insert _ (db st)) as [e|db1] eqn:Hins; [done|].
      apply (insert_unique _ _ _ Hst) in Hins.
      destruct (send_command _ _ (with_db st db1)) as [ok st2] eqn:Hsend.
      pose proof (send_command_db (token env)
        (fun i => Execute i command_type command path content working_dir timeout)
        (with_db st db1)) as Hdb2. rewrite Hsend in Hdb2. simpl in Hdb2.
      destruct ok; simpl in Hsub; [|done]. simplify_eq. simpl.
      unfold unique_ids. by rewrite set_running_ids.
Qed.

Lemma select_some_taken (key : string) (d : list Row) (row : Row) :
  select key d = Some row -> existsb (fun r => bool_decide (id r = key)) d = true.
Proof.
  unfold select. induction d as [|r d IH]; [done|]. simpl.
  destruct (bool_decide (id r = key)); [done|]. exact IH.
Qed.

(** X19. An insertion that is refused raises, and nothing has been
    stored, pushed or marked. With an agent connected, a timeout that
    does not fit the column raises the overflow error when it is
    bound, whatever the token; a timeout that fits and a token that is
    already the id of a row raise the constraint error. *)
Theorem refused_insert_raises env command_type timeout command path content
    working_dir st :
  is_agent_connected st = true ->
  (int64 timeout = false ->
   execute_command env command_type timeout command path content working_dir st =
     {| returned := inl OVERFLOW; state := st; slept := 0 |})
  /\ (forall row,
        int64 timeout = true -> select (token env) (db st) = Some row ->
        execute_command env command_type timeout command path content working_dir st =
          {| returned := inl "UNIQUE constraint failed: commands.id";
             state := st; slept := 0 |}).
Proof.
  intros Hconn. split.
  - intros Hbig. unfold execute_command, submit. rewrite Hconn. simpl negb.
    cbv iota. unfold insert.
    change (Server.timeout (new_row env command_type timeout command path content
                              working_dir)) with timeout.
    by rewrite Hbig.
  - intros row Hfit Htaken. unfold execute_command, submit. rewrite Hconn. simpl negb.
    cbv iota. unfold insert.
    change (Server.timeout (new_row env command_type timeout command path content
                              working_dir)) with timeout.
    change (id (new_row env command_type timeout command path content working_dir))
      with (token env).
    rewrite Hfit. simpl. by rewrite (select_some_taken _ _ _ Htaken).
Qed.

(** ** Admission *)

Lemma bits_above (n : Z) (w i : Z) :
  (0 <= n < 2 ^ w)%Z -> (w <= i)%Z -> Z.testbit n i = false.
Proof.
  intros [Hn Hlt] Hi. destruct (decide (n = 0%Z)) as [->|Hnz]; [apply Z.bits_0|].
  apply Z.bits_above_log2; [done|].
  assert (Hw : (0 < w)%Z).
  { destruct (Z.lt_ge_cases 0 w) as [|Hw]; [done|].
    destruct (decide (w = 0%Z)) as [->|]; [simpl in *; lia|]. rewrite Z.pow_neg_r in Hlt; lia. }
  assert (Z.log2 n < w)%Z; [|lia]. apply Z.log2_lt_pow2; lia.
Qed.

Lemma land_prefix_mask (n w k : Z) :
  (0 <= k <= w)%Z -> (0 <= n < 2 ^ w)%Z ->
  Z.land n (Z.shiftl (Z.ones (w - k)) k) = (2 ^ k * (n / 2 ^ k))%Z.
Proof.
  intros Hk Hn.
  rewrite (Z.mul_comm (2 ^ k)), <- Z.shiftr_div_pow2, <- Z.shiftl_mul_pow2 by lia.
  apply Z.bits_inj'. intros i Hi.
  rewrite Z.land_spec, !Z.shiftl_spec by lia.
  destruct (Z.lt_ge_cases i k) as [Hlt|Hge].
  - rewrite !(Z.testbit_neg_r _ (i - k)) by lia. apply andb_false_r.
  - rewrite Z.shiftr_spec by lia. replace (i - k + k)%Z with i by lia.
    destruct (Z.lt_ge_cases i w) as [Hiw|Hiw].
    + rewrite Z.ones_spec_low by lia. apply andb_true_r.
    + rewrite (bits_above n w i) by lia. done.
Qed.

Lemma contains_range (net : Network) (n w k q : Z) :
  (0 <= k <= w)%Z -> (0 <= n < 2 ^ w)%Z ->
  netmask net = Z.shiftl (Z.ones (w - k)) k ->
  network_address net = (2 ^ k * q)%Z ->
  contains net n = true <-> (2 ^ k * q <= n < 2 ^ k * (q + 1))%Z.
Proof.
  intros Hk Hn Hmask Hnet. unfold contains.
  rewrite Hmask, Hnet, (land_prefix_mask n w k Hk Hn), Z.eqb_eq.
  assert (Hpos : (0 < 2 ^ k)%Z) by (apply Z.pow_pos_nonneg; lia).
  pose proof (Z.div_mod n (2 ^ k) ltac:(lia)) as Hdiv.
  pose proof (Z.mod_pos_bound n (2 ^ k) Hpos) as Hmod.
  split.
  - intros Heq. apply Z.mul_reg_l in Heq; [|lia]. subst q. nia.
  - intros [Hlo Hhi]. f_equal. nia.
Qed.

(** X20. The network gate on an IPv4 address. A text the library does
    not parse is refused; a text parsed as the IPv4 address of number
    [n] is accepted exactly when [n] is in 127.0.0.0 - 127.255.255.255
    or in 100.64.0.0 - 100.127.255.255. *)
Theorem private_network_ipv4 (lib : Ipaddress) (ip_str : string) :
  (ip_address lib ip_str = None -> is_private_network_ip lib ip_str = false)
  /\ (forall n,
        ip_address lib ip_str = Some (IPv4 n) -> (0 <= n < 2 ^ 32)%Z ->
        is_private_network_ip lib ip_str = true <->
        (ipv4 127 0 0 0 <= n <= ipv4 127 255 255 255)%Z
        \/ (ipv4 100 64 0 0 <= n <= ipv4 100 127 255 255)%Z).
Proof.
  split.
  - intros Hnone. unfold is_private_network_ip. by rewrite Hnone.
  - intros n Hparse Hn. unfold is_private_network_ip, is_loopback. rewrite Hparse.
    pose proof (contains_range LOOPBACK_NETWORK n 32 24 127
                  ltac:(lia) Hn eq_refl eq_refl) as Hloop.
    pose proof (contains_range TAILSCALE_NETWORK n 32 22 401
                  ltac:(lia) Hn eq_refl eq_refl) as Htail.
    unfold ipv4.
    destruct (contains LOOPBACK_NETWORK n) eqn:Hl.
    + split; [intros _|done]. left. destruct Hloop as [Hloop _].
      specialize (Hloop eq_refl). lia.
    + rewrite Htail. split; [intros H; right; lia|].
      intros [H|H]; [|lia]. exfalso.
      assert (false = true); [|done]. apply Hloop. lia.
Qed.

(** X21. The network gate on an IPv6 address that the library does not
    count as loopback: it is accepted exactly when its first sixteen
    bits are [fdaa]. *)
Theorem private_network_ipv6 (lib : Ipaddress) (ip_str : string) (n : Z) :
  ip_address lib ip_str = Some (IPv6 n) -> (0 <= n < 2 ^ 128)%Z ->
  is_loopback6 lib n = false ->
  is_private_network_ip lib ip_str = true <->
  (Z.shiftl 0xfdaa 112 <= n < Z.shiftl 0xfdab 112)%Z.
Proof.
  intros Hparse Hn Hloop. unfold is_private_network_ip, is_loopback.
  rewrite Hparse, Hloop.
  rewrite (contains_range FLYIO_NETWORK n 128 112 0xfdaa ltac:(lia) Hn eq_refl eq_refl).
  rewrite !Z.shiftl_mul_pow2 by lia. lia.
Qed.

Lemma before_comma_app (a rest : string) :
  Agent.occurs ","%char a = false -> before_comma (a +:+ String ","%char rest) = a.
Proof.
  induction a as [|c a IH]; [done|]. simpl.
  intros Hno. apply orb_false_iff in Hno as [Hc Ha].
  rewrite Hc. f_equal. by apply IH.
Qed.

Lemma before_comma_none (a : string) :
  Agent.occurs ","%char a = false -> before_comma a = a.
Proof.
  induction a as [|c a IH]; [done|]. simpl.
  intros Hno. apply orb_false_iff in Hno as [Hc Ha].
  rewrite Hc. f_equal. by apply IH.
Qed.

(** X22. The address the gates look at. With a forwarded-for header
    that is not empty it is the text before the first comma, stripped
    of white space, whatever the peer; without one it is the host of
    the peer, or the empty text when there is no peer. *)
Theorem client_ip_is_first_hop (client : option string) :
  (forall a rest, Agent.occurs ","%char a = false ->
      get_client_ip (Some (a +:+ String ","%char rest)) client = strip a)
  /\ (forall a, a <> EmptyString -> Agent.occurs ","%char a = false ->
        get_client_ip (Some a) client = strip a)
  /\ (forall forwarded, forwarded <> EmptyString ->
        trimmed (get_client_ip (Some forwarded) client))
  /\ get_client_ip None client = default EmptyString client
  /\ get_client_ip (Some EmptyString) client = default EmptyString client.
Proof.
  unfold get_client_ip. split; [|split; [|split; [|split]]]; simpl; try done.
  - intros a rest Hno.
    destruct (a +:+ String ","%char rest) eqn:E.
    + by destruct a.
    + simpl truthy. cbv iota. by rewrite <- E, before_comma_app.
  - intros [|c a] Hne Hno; [done|]. simpl truthy. cbv iota.
    by rewrite before_comma_none.
  - intros [|c f] Hne; [done|]. simpl truthy. cbv iota. apply strip_twice.
Qed.

Lemma compare_digest_true (a b : string) :
  compare_digest a b = inr true <-> a = b /\ is_ascii b = true.
Proof.
  unfold compare_digest. split.
  - destruct (is_ascii a && is_ascii b) eqn:Hasc; [|done].
    intros [= Heq]. apply bool_decide_eq_true in Heq.
    apply andb_true_iff in Hasc as [_ Hb]. done.
  - intros [-> Hb]. rewrite Hb. simpl. by rewrite bool_decide_eq_true_2.
Qed.

(** X23. Who is admitted. An agent gets in exactly when it passes the
    network gate (or the gate is off) and its query token is the
    configured secret, the secret being neither empty nor outside
    ASCII. A handshake that is not admitted leaves the relay as it was:
    the reference, the sockets and the table are untouched. *)
Theorem admission_exact (cfg : Config) (lib : Ipaddress) (h : Handshake) :
  (admission cfg lib h = Accepted <->
   (REQUIRE_PRIVATE_NETWORK cfg = false
    \/ is_private_network_ip lib
         (get_client_ip (forwarded_for h) (client_host h)) = true)
   /\ query_token h = Some (AUTH_TOKEN cfg)
   /\ AUTH_TOKEN cfg <> EmptyString
   /\ is_ascii (AUTH_TOKEN cfg) = true)
  /\ (admission cfg lib h <> Accepted ->
      forall clock ws frames st, agent_websocket cfg lib h clock ws frames st = st).
Proof.
  split.
  - unfold admission.
    destruct (REQUIRE_PRIVATE_NETWORK cfg); simpl;
      destruct (is_private_network_ip lib _); simpl;
      try (split; [done | by intros [[?|?] _]]);
      (destruct (query_token h) as [token|]; [|split; [done | by intros (_ & ? & _)]]);
      (destruct token as [|c token]; simpl;
       [split; [done | intros (_ & [= <-] & ? & _); done]|]);
      (destruct (compare_digest (String c token) (AUTH_TOKEN cfg)) as [e|[|]] eqn:Hcmp;
       [ split; [done|]; intros (_ & [= Htok] & _ & Hasc);
         assert (compare_digest (String c token) (AUTH_TOKEN cfg) = inr true)
           by (by apply compare_digest_true); congruence
       | apply compare_digest_true in Hcmp as [<- Hasc];
         split; [intros _; repeat split; auto | done]
       | split; [done|]; intros (_ & [= Htok] & _ & Hasc);
         assert (compare_digest (String c token) (AUTH_TOKEN cfg) = inr true)
           by (by apply compare_digest_true); congruence ]).
  - intros Hno clock ws frames st. unfold agent_websocket.
    by destruct (admission cfg lib h).
Qed.

(** ** The listing of commands *)

Lemma prefix_slice (s1 s2 : string) :
  String.prefix s1 s2 = true -> s2 = s1 +:+ slice_from (String.length s1) s2.
Proof.
  revert s2. induction s1 as [|a s1 IH]; intros s2; [by destruct s2|].
  destruct s2 as [|b s2]; [done|].
  change (String.prefix (String a s1) (String b s2))
    with (if ascii_dec a b then String.prefix s1 s2 else false).
  destruct (ascii_dec a b) as [<-|]; [|done].
  intros Hpre. simpl slice_from.
  change (String a s1 +:+ slice_from (String.length s1) s2)
    with (String a (s1 +:+ slice_from (String.length s1) s2)).
  f_equal. by apply IH.
Qed.

Lemma Sorted_take {A} (R : relation A) (l : list A) (n : nat) :
  Sorted R l -> Sorted R (take n l).
Proof.
  revert n. induction l as [|x l IH]; intros n Hs; [by destruct n|].
  destruct n as [|n]; [constructor|]. simpl.
  apply Sorted_inv in Hs as [Hs Hhd]. constructor; [by apply IH|].
  destruct n; [constructor|]. destruct Hhd; simpl; by constructor.
Qed.

Global Instance created_ge_total : Total created_ge.
Proof. intros r1 r2. unfold created_ge. apply String.leb_total. Qed.

Lemma select_recent_spec (limit : Z) (d : list Row) :
  Sorted created_ge (select_recent limit d)
  /\ (forall r, r ∈ select_recent limit d -> r ∈ d)
  /\ (length (select_recent limit d) <= length d)%nat
  /\ ((0 <= limit)%Z -> (Z.of_nat (length (select_recent limit d)) <= limit)%Z)
  /\ ((limit < 0)%Z \/ (Z.of_nat (length d) <= limit)%Z ->
      select_recent limit d ≡ₚ d).
Proof.
  unfold select_recent.
  pose proof (merge_sort_Permutation created_ge d) as Hperm.
  pose proof (Sorted_merge_sort created_ge d) as Hsorted.
  assert (Hlen : length (merge_sort created_ge d) = length d) by by rewrite Hperm.
  destruct (Z.ltb_spec limit 0) as [Hneg|Hpos].
  - split; [done|]. split; [by intros r; rewrite Hperm|]. split; [lia|].
    split; [lia|done].
  - split; [by apply Sorted_take|]. split.
    + intros r Hr. rewrite <- Hperm. by eapply subseteq_take.
    + rewrite length_take. split; [lia|]. split; [lia|].
      intros [Hl|Hl]; [lia|]. rewrite take_ge by lia. done.
Qed.

(** X24. What the listing gives away. Rows are listed only to a
    request whose [Authorization] header is [Bearer ] followed by the
    secret; the entries are then those of rows of the table, newest
    first, no more than [limit] of them when [limit] is not negative
    (and all of them when it is negative); an output is cut to its
    first 500 characters, and an empty one is listed as none. *)
Theorem listing_is_bounded (cfg : Config) (authorization : option string)
    (limit : Exc Z) (d : list Row) (rows : list Summary.t) :
  get_commands cfg authorization limit d = Listing rows ->
  authorization = Some ("Bearer " +:+ AUTH_TOKEN cfg)
  /\ exists n shown,
      limit = inr n /\ rows = map summary shown
      /\ Sorted created_ge shown
      /\ (forall r, r ∈ shown -> r ∈ d)
      /\ (length rows <= length d)%nat
      /\ ((0 <= n)%Z -> (Z.of_nat (length rows) <= n)%Z)
      /\ ((n < 0)%Z -> shown ≡ₚ d)
      /\ (forall r o, r ∈ shown -> Summary.output (summary r) = Some o ->
            exists stored, output r = Some stored /\ o = slice_to 500 stored
                           /\ (0 < len o <= 500)%Z).
Proof.
  unfold get_commands.
  destruct authorization as [auth|]; [|by simpl].
  change (default EmptyString (Some auth)) with auth.
  destruct (String.prefix "Bearer " auth) eqn:Hpre; [|by simpl]. simpl negb. cbv iota.
  destruct (compare_digest (slice_from 7 auth) (AUTH_TOKEN cfg)) as [e|[|]] eqn:Hcmp;
    [done| |done].
  destruct limit as [e|n]; [done|].
  destruct (negb (int64 n)); [done|]. intros [= <-].
  apply compare_digest_true in Hcmp as [Htok _].
  split.
  { rewrite (prefix_slice _ auth Hpre) at 1.
    change (String.length "Bearer ") with 7%nat. by rewrite Htok. }
  destruct (select_recent_spec n d) as (Hsorted & Hin & Hlen & Hlim & Hall).
  exists n, (select_recent n d). rewrite length_map.
  split; [done|]. split; [done|]. split; [done|]. split; [done|].
  split; [done|]. split; [done|]. split; [by intros; apply Hall; left|].
  intros r o _. unfold summary. cbn [Summary.output].
  destruct (output r) as [stored|]; [|done].
  destruct (truthy stored) eqn:Ht; [|done].
  intros [= <-]. exists stored. split; [done|]. split; [done|].
  rewrite AgentProofs.len_slice_to by lia.
  destruct stored as [|c stored']; [done|].
  rewrite AgentProofs.len_String. pose proof (AgentProofs.len_nonneg stored'). lia.
Qed.

(** ** The properties on the reference state *)

Lemma send_command_effect_witness :
  let command_data i := Execute i "shell" (Some "echo hi") None None None 5%Z in
  let st' := snd (send_command "c1" command_data st0) in
  written 1 st' = [command_data "c1"]
  /\ forall ws', ws' <> 1%nat -> sockets st' !! ws' = sockets st0 !! ws'.
Proof.
  intros command_data st'.
  destruct (send_command_effect "c1" command_data st0) as (_ & _ & _ & _ & Hsent).
  exact (Hsent 1%nat eq_refl eq_refl).
Defined.



Lemma handler_end_disconnects_witness :
  let h := {| forwarded_for := Some "100.101.102.103, 10.0.0.7";
              client_host := Some "10.0.0.7";
              query_token := Some "s3cr3t-t0ken" |} in
  agent_connection
    (agent_websocket config0 toy_ipaddress h (fun _ => "2025-01-01T00:00:03+00:00")
       2 [("2025-01-01T00:00:04+00:00", bare_result "Zk3v9Qw1LmNp4TyB")] st0) = None.
Proof.
  intros h.
  destruct (handler_end_disconnects 2
              [("2025-01-01T00:00:04+00:00", bare_result "Zk3v9Qw1LmNp4TyB")] st0)
    as (_ & _ & Hend).
  apply Hend. vm_compute. reflexivity.
Defined.

Lemma backlog_unique :
  unique_ids [done_row; new_row quiet "shell" 5 (Some "echo hi") None None None].
Proof.
  unfold unique_ids. simpl. apply NoDup_cons. split.
  - intros Hin. apply list_elem_of_singleton in Hin. discriminate.
  - apply NoDup_singleton.
Qed.

Lemma on_connect_backlog_witness :
  let row := new_row quiet "shell" 5 (Some "echo hi") None None None in
  let st := with_db st0 [done_row; row] in
  let st' := on_connect (fun _ => "2025-01-01T00:00:03+00:00") 1 st in
  agent_connection st' = Some 1%nat
  /\ db st' !! 0%nat = Some done_row
  /\ (exists t, db st' !! 1%nat = Some (started t row))
  /\ written 1 st' = [execute_frame row].
Proof.
  intros row st st'. subst st'.
  destruct (on_connect_backlog (fun _ => "2025-01-01T00:00:03+00:00") 1 st
              backlog_unique) as (Hconn & Hrows & _ & _ & Hopen & _).
  split; [exact Hconn|]. split; [|split].
  - apply (Hrows 0%nat done_row eq_refl). discriminate.
  - apply (Hrows 1%nat row eq_refl). reflexivity.
  - rewrite (Hopen {| open := true; outbox := [] |} eq_refl eq_refl).
    vm_compute. reflexivity.
Defined.

Lemma result_is_delivered_witness :
  let o := execute_command Wire.echo_env "shell" 5 (Some "echo hi") None None None st0 in
  returned o = inr ("hi" +:+ LF_s +:+ LF_s +:+ "[exit_code: 0]")
  /\ slept o = 500%Z.
Proof.
  intros o. subst o.
  destruct (result_is_delivered Wire.echo_env "shell" 5 (Some "echo hi") None None None
              st0
              (match submit Wire.echo_env "shell" 5 (Some "echo hi") None None None st0
               with Waiting s => s | Returned _ => st0 end)
              0
              (finished "completed" (Some ("hi" +:+ LF_s)) None (Some 0%Z)
                 "2025-01-01T00:00:02+00:00"
                 (started "2025-01-01T00:00:01+00:00"
                    (new_row Wire.echo_env "shell" 5 (Some "echo hi") None None None))))
    as (Htext & Hslept & _).
  - vm_compute. reflexivity.
  - vm_compute. lia.
  - intros i Hi. lia.
  - vm_compute. reflexivity.
  - reflexivity.
  - split; [rewrite Htext; reflexivity | exact Hslept].
Defined.

Lemma returned_text_is_trimmed_witness :
  "Error: Mac agent is not connected. Please ensure the agent is running." <> EmptyString /\ trimmed "Error: Mac agent is not connected. Please ensure the agent is running.".
Proof.
  apply (returned_text_is_trimmed quiet "shell" 5 (Some "echo hi") None None None
           (disconnect_agent st0)).
  vm_compute. reflexivity.
Defined.

Lemma ids_stay_unique_witness :
  unique_ids
    (db (on_connect (fun _ => "2025-01-01T00:00:03+00:00") 1
           (with_db st0 [done_row;
                         new_row quiet "shell" 5 (Some "echo hi") None None None]))).
Proof.
  destruct (ids_stay_unique
              (with_db st0 [done_row;
                            new_row quiet "shell" 5 (Some "echo hi") None None None])
              backlog_unique) as (_ & Hconnect & _).
  apply Hconnect.
Defined.

Lemma refused_insert_raises_witness :
  let st := with_db st0 [new_row quiet "read_file" 60 None (Some "~/notes.txt") None None] in
  execute_command quiet "shell" (2 ^ 63) (Some "echo hi") None None None st =
    {| returned := inl OVERFLOW; state := st; slept := 0 |}
  /\ execute_command quiet "shell" 5 (Some "echo hi") None None None st =
    {| returned := inl "UNIQUE constraint failed: commands.id";
       state := st; slept := 0 |}.
Proof.
  intros st. split.
  - apply (refused_insert_raises quiet "shell" (2 ^ 63) (Some "echo hi") None None None
             st); reflexivity.
  - apply (proj2 (refused_insert_raises quiet "shell" 5 (Some "echo hi") None None None
                    st eq_refl)
             (new_row quiet "read_file" 60 None (Some "~/notes.txt") None None));
      reflexivity.
Defined.

Lemma private_network_ipv4_witness :
  is_private_network_ip toy_ipaddress "203.0.113.9" = true <->
  (ipv4 127 0 0 0 <= ipv4 203 0 113 9 <= ipv4 127 255 255 255)%Z
  \/ (ipv4 100 64 0 0 <= ipv4 203 0 113 9 <= ipv4 100 127 255 255)%Z.
Proof.
  apply (proj2 (private_network_ipv4 toy_ipaddress "203.0.113.9")).
  - reflexivity.
  - vm_compute. split; [discriminate | reflexivity].
Defined.

Lemma private_network_ipv6_witness :
  is_private_network_ip toy_ipaddress "fdaa:0:1::2" = true <->
  (Z.shiftl 0xfdaa 112 <= Z.shiftl 0xfdaa 112 + Z.shiftl 1 80 + 2
   < Z.shiftl 0xfdab 112)%Z.
Proof.
  apply (private_network_ipv6 toy_ipaddress "fdaa:0:1::2").
  - reflexivity.
  - vm_compute. split; [discriminate | reflexivity].
  - reflexivity.
Defined.

Lemma client_ip_is_first_hop_witness :
  get_client_ip (Some (" 100.101.102.103 " +:+ String ","%char " 10.0.0.7"))
    (Some "10.0.0.7") = "100.101.102.103".
Proof.
  rewrite (proj1 (client_ip_is_first_hop (Some "10.0.0.7"))
             " 100.101.102.103 " " 10.0.0.7" eq_refl).
  reflexivity.
Defined.

Lemma admission_exact_witness :
  let h := {| forwarded_for := Some "203.0.113.9";
              client_host := Some "100.101.102.103";
              query_token := Some "s3cr3t-t0ken" |} in
  agent_websocket config0 toy_ipaddress h (fun _ => "2025-01-01T00:00:03+00:00")
    2 [("2025-01-01T00:00:04+00:00", bare_result "Zk3v9Qw1LmNp4TyB")] st0 = st0.
Proof.
  intros h. apply (proj2 (admission_exact config0 toy_ipaddress h)).
  vm_compute. discriminate.
Defined.

Lemma listing_is_bounded_witness :
  let d := [done_row; new_row quiet "shell" 5 (Some "echo hi") None None None] in
  let rows := map summary (select_recent 1 d) in
  Some "Bearer s3cr3t-t0ken" = Some ("Bearer " +:+ AUTH_TOKEN config0)
  /\ exists n shown,
      (inr 1%Z : Exc Z) = inr n /\ rows = map summary shown
      /\ Sorted created_ge shown
      /\ (forall r, r ∈ shown -> r ∈ d)
      /\ (length rows <= length d)%nat
      /\ ((0 <= n)%Z -> (Z.of_nat (length rows) <= n)%Z)
      /\ ((n < 0)%Z -> shown ≡ₚ d)
      /\ (forall r o, r ∈ shown -> Summary.output (summary r) = Some o ->
            exists stored, output r = Some stored /\ o = slice_to 500 stored
                           /\ (0 < len o <= 500)%Z).
Proof.
  intros d rows.
  apply (listing_is_bounded config0 (Some "Bearer s3cr3t-t0ken") (inr 1%Z) d rows).
  vm_compute. reflexivity.
Defined.

End ServerMore.

(** * The two programs together *)
Module EndToEnd.
Import Server ServerProofs ServerMore.
Local Open Scope list_scope.

Lemma select_set_running_last (now key : string) (d : list Row) (row : Row) :
  existsb (fun r => bool_decide (id r = key)) d = false -> id row = key ->
  select key (set_running now (Some key) (d ++ [row])) = Some (started now row).
Proof.
  unfold select, set_running. intros Hfresh <-.
  induction d as [|r d IH]; simpl in *.
  - rewrite (bool_decide_eq_true_2 (id row = id row)) by done. simpl.
    by rewrite (bool_decide_eq_true_2 (id row = id row)).
  - apply orb_false_iff in Hfresh as [Hr Hd]. rewrite Hr. simpl. rewrite Hr.
    by apply IH.
Qed.

Lemma submit_waiting_row env command_type timeout command path content working_dir
    st st3 :
  submit env command_type timeout command path content working_dir st = Waiting st3 ->
  select (token env) (db st3)
  = Some (started (now_started env)
            (new_row env command_type timeout command path content working_dir)).
Proof.
  unfold submit. destruct (negb (is_agent_connected st)); [done|].
  unfold insert.
  change (id (new_row env command_type timeout command path content working_dir))
    with (token env).
  destruct (negb (int64 _)); [done|].
  destruct (existsb _ (db st)) eqn:Hfresh; [done|].
  destruct (send_command _ _ _) as [ok st2] eqn:Hsend.
  pose proof (send_command_db (token env)
    (fun i => Execute i command_type command path content working_dir timeout)
    (with_db st (db st ++ [new_row env command_type timeout command path content
                             working_dir]))) as Hdb.
  rewrite Hsend in Hdb. simpl in Hdb.
  destruct ok; simpl; [|done]. intros [= <-]. simpl. rewrite Hdb.
  by apply select_set_running_last.
Qed.

Lemma select_set_result s o e c (now key : string) (d : list Row) (row : Row) :
  select key d = Some row ->
  select key (set_result s o e c now (Some key) d) = Some (finished s o e c now row).
Proof.
  unfold select, set_result. induction d as [|r d IH]; [done|]. simpl.
  destruct (bool_decide (id r = key)) eqn:Hr; simpl; rewrite Hr.
  - by intros [= <-].
  - exact IH.
Qed.

Lemma result_status_terminal (s : string) : Agent.result_status s -> terminal s = true.
Proof. by intros [->|[->| ->]]. Qed.

(** X25. A command from the caller to the machine and back. When
    [execute_command] has pushed a command, the agent handles the frame
    pushed, and its reply is stored by the receive loop during the
    first sleep of the caller, the caller is returned, after half a
    second, the text made of the output, the error and the exit code of
    the handler's result. *)
Theorem relayed_result `{host : Agent.Host} env command_type timeout command path
    content working_dir st st3 (ws : nat) (now : string) (os os' : Agent.OS)
    (reply : Agent.Reply) :
  submit env command_type timeout command path content working_dir st = Waiting st3 ->
  Agent.handle_command
    (Wire.to_agent (Execute (token env) command_type command path content
                      working_dir timeout)) os
    = Some (inr (reply, os')) ->
  during_sleep env 0 (db st3) = db (fst (on_message ws now (Wire.to_relay reply) st3)) ->
  (0 < timeout * 2 + 10)%Z ->
  let r := Agent.result reply in
  let o := execute_command env command_type timeout command path content working_dir st in
  returned o =
    inr (result_text
           (finished (Agent.status r) (get (Agent.output r)) (get (Agent.error r))
              (get (Agent.exit_code r)) now
              (started (now_started env)
                 (new_row env command_type timeout command path content working_dir))))
  /\ slept o = 500%Z.
Proof.
  intros Hsub Hhandle Hstored Hbudget r o. subst r o.
  destruct (AgentMore.handle_command_reply _ _ _ _ Hhandle) as [Hid Hshape].
  simpl in Hid.
  pose proof (submit_waiting_row _ _ _ _ _ _ _ _ _ Hsub) as Hrow.
  assert (Hsel : select (token env) (db_after env 0 1 (db st3)) =
    Some (finished (Agent.status (Agent.result reply))
            (get (Agent.output (Agent.result reply)))
            (get (Agent.error (Agent.result reply)))
            (get (Agent.exit_code (Agent.result reply))) now
            (started (now_started env)
               (new_row env command_type timeout command path content working_dir)))).
  { destruct (AgentMore.handle_command_exit_code _ _ _ _ Hhandle) as (n & Hn & Hrange).
    assert (Hfit : int64 n = true).
    { unfold int64. apply andb_true_iff. split; [apply Z.leb_le|apply Z.ltb_lt]; lia. }
    simpl. rewrite Hstored. unfold on_message, Wire.to_relay. simpl.
    rewrite Hid, Hn. simpl. rewrite Hfit. simpl. by apply select_set_result. }
  assert (Hrounds : (0 < Z.to_nat (timeout * 2 + 10))%nat) by lia.
  assert (Hnone : forall i, (i < 0)%nat ->
            seen_terminal (token env) (db_after env 0 (S i) (db st3)) = false)
    by (intros i Hi; lia).
  unfold execute_command. rewrite Hsub.
  rewrite (poll_first_terminal _ 0 env (token env) st3 0 0 _ Hrounds Hnone Hsel).
  - by split.
  - apply result_status_terminal. apply Hshape.
Qed.

Lemma relayed_result_witness :
  let o := execute_command Wire.echo_env "shell" 5 (Some "echo hi") None None None st0 in
  returned o = inr ("hi" +:+ LF_s +:+ LF_s +:+ "[exit_code: 0]") /\ slept o = 500%Z.
Proof.
  destruct (relayed_result (host := Agent.posix_host) Wire.echo_env "shell" 5
           (Some "echo hi") None None None st0
           (match submit Wire.echo_env "shell" 5 (Some "echo hi") None None None st0 with
            | Waiting s => s
            | Returned _ => st0
            end)
           1 "2025-01-01T00:00:02+00:00" Agent.os0
           (snd (Agent.run_shell (host := Agent.posix_host) "echo hi" None 5 Agent.os0))
           {| Agent.reply_id := Some "q7Rk2mX9vLpA0sWd";
              Agent.result :=
                fst (Agent.run_shell (host := Agent.posix_host) "echo hi" None 5
                       Agent.os0) |}
           eq_refl eq_refl eq_refl eq_refl) as [Htext Hslept].
  split; [rewrite Htext; reflexivity | exact Hslept].
Defined.

End EndToEnd.
